(** * Polar backend: checkout, license keys, webhook fan-out, order amounts

    A shallow embedding of the service layer of the Polar server
    ([server/polar/checkout/service.py], [server/polar/license_key/service.py],
    [server/polar/webhook/service.py], [server/polar/auth/service.py])
    together with the properties the specification states about it.

    Python objects that the services mutate in place are modelled by
    explicit state passing: a service method is a function from the state
    it mutates to an outcome and the state it leaves behind.  An exception
    does not roll anything back: the state returned next to [Raise] is the
    state at the point of the [raise]. *)

From stdpp Require Import base option list gmap strings.
From Stdlib Require Import ZArith Lia.

Local Open Scope string_scope.
Local Open Scope list_scope.
Local Open Scope Z_scope.

(** ** Outcomes and the state-and-exception monad *)

Inductive result (E A : Type) : Type :=
| Ok (a : A)
| Raise (e : E).
Arguments Ok {E A} a.
Arguments Raise {E A} e.

Definition M (S E A : Type) : Type := S -> result E A * S.

Definition ret {S E A} (a : A) : M S E A := fun s => (Ok a, s).

Definition raise {S E A} (e : E) : M S E A := fun s => (Raise e, s).

Definition bind {S E A B} (c : M S E A) (k : A -> M S E B) : M S E B :=
  fun s =>
    match c s with
    | (Ok a, s') => k a s'
    | (Raise e, s') => (Raise e, s')
    end.

Definition get {S E} : M S E S := fun s => (Ok s, s).

Definition modify {S E} (f : S -> S) : M S E unit := fun s => (Ok tt, f s).

Definition when {S E} (b : bool) (c : M S E unit) : M S E unit :=
  if b then c else ret tt.

(** Run a computation on the first component of a pair of states. *)
Definition on_fst {S T E A} (c : M S E A) : M (S * T) E A :=
  fun st => let '(r, s') := c (fst st) in (r, (s', snd st)).

Declare Scope py_scope.
Delimit Scope py_scope with py.
Notation "'let*' x ':=' c 'in' k" := (bind c (fun x => k))
  (at level 10, x name, c at level 100, k at level 200) : py_scope.
Notation "c '>>' k" := (bind c (fun _ => k))
  (at level 90, right associativity) : py_scope.
Local Open Scope py_scope.

(** Identifiers (UUIDs) and timestamps are numbers. *)
Abbreviation UUID := N (only parsing).
Abbreviation Time := Z (only parsing).

(** A pydantic field read through [model_dump(exclude_unset=True)]: either
    the request did not carry it, or it carries a value (possibly [None]). *)
Inductive Field (A : Type) : Type :=
| Unset
| Set_ (a : A).
Arguments Unset {A}.
Arguments Set_ {A} a.

(** ** Checkout service *)

Module Checkout.

(** [polar.models.checkout.CheckoutStatus]; the source names [confirmed]
    and [succeeded], the other members are the specification's. *)
Inductive CheckoutStatus : Type :=
| open | confirmed | succeeded | expired | failed.

Global Instance CheckoutStatus_eq_dec : EqDecision CheckoutStatus.
Proof. solve_decision. Defined.

Inductive PaymentProcessor : Type :=
| stripe
| other_processor.

Global Instance PaymentProcessor_eq_dec : EqDecision PaymentProcessor.
Proof. solve_decision. Defined.

Record Address : Type := { country : string }.

Record Product : Type := {
  product_id : UUID;
  organization_id : UUID;
  product_is_archived : bool
}.

(** The three price classes the service dispatches on with [isinstance]. *)
Inductive PriceKind : Type :=
| ProductPriceFixed (price_amount : Z) (price_currency : string)
| ProductPriceCustom (price_currency : string)
| ProductPriceFree.

Record ProductPrice : Type := {
  price_id : UUID;
  price_product : Product;
  is_archived : bool;
  is_recurring : bool;
  stripe_price_id : string;
  price_kind : PriceKind
}.

Definition is_custom (p : ProductPrice) : bool :=
  match price_kind p with ProductPriceCustom _ => true | _ => false end.

Record Checkout : Type := {
  id : UUID;
  status : CheckoutStatus;
  amount : option Z;
  currency : option string;
  product : Product;
  product_price : ProductPrice;
  customer_name : option string;
  customer_email : option string;
  customer_billing_address : option Address;
  user_metadata : gmap string string;
  payment_processor : PaymentProcessor;
  payment_processor_metadata : gmap string string
}.

(** Attribute assignments [checkout.attr = value]. *)
Definition set_status v c := {|
  id := id c; status := v; amount := amount c; currency := currency c;
  product := product c; product_price := product_price c;
  customer_name := customer_name c; customer_email := customer_email c;
  customer_billing_address := customer_billing_address c;
  user_metadata := user_metadata c;
  payment_processor := payment_processor c;
  payment_processor_metadata := payment_processor_metadata c |}.

Definition set_amount v c := {|
  id := id c; status := status c; amount := v; currency := currency c;
  product := product c; product_price := product_price c;
  customer_name := customer_name c; customer_email := customer_email c;
  customer_billing_address := customer_billing_address c;
  user_metadata := user_metadata c;
  payment_processor := payment_processor c;
  payment_processor_metadata := payment_processor_metadata c |}.

Definition set_currency v c := {|
  id := id c; status := status c; amount := amount c; currency := v;
  product := product c; product_price := product_price c;
  customer_name := customer_name c; customer_email := customer_email c;
  customer_billing_address := customer_billing_address c;
  user_metadata := user_metadata c;
  payment_processor := payment_processor c;
  payment_processor_metadata := payment_processor_metadata c |}.

Definition set_product_price v c := {|
  id := id c; status := status c; amount := amount c; currency := currency c;
  product := product c; product_price := v;
  customer_name := customer_name c; customer_email := customer_email c;
  customer_billing_address := customer_billing_address c;
  user_metadata := user_metadata c;
  payment_processor := payment_processor c;
  payment_processor_metadata := payment_processor_metadata c |}.

Definition set_customer_name v c := {|
  id := id c; status := status c; amount := amount c; currency := currency c;
  product := product c; product_price := product_price c;
  customer_name := v; customer_email := customer_email c;
  customer_billing_address := customer_billing_address c;
  user_metadata := user_metadata c;
  payment_processor := payment_processor c;
  payment_processor_metadata := payment_processor_metadata c |}.

Definition set_customer_email v c := {|
  id := id c; status := status c; amount := amount c; currency := currency c;
  product := product c; product_price := product_price c;
  customer_name := customer_name c; customer_email := v;
  customer_billing_address := customer_billing_address c;
  user_metadata := user_metadata c;
  payment_processor := payment_processor c;
  payment_processor_metadata := payment_processor_metadata c |}.

Definition set_customer_billing_address v c := {|
  id := id c; status := status c; amount := amount c; currency := currency c;
  product := product c; product_price := product_price c;
  customer_name := customer_name c; customer_email := customer_email c;
  customer_billing_address := v;
  user_metadata := user_metadata c;
  payment_processor := payment_processor c;
  payment_processor_metadata := payment_processor_metadata c |}.

Definition set_user_metadata v c := {|
  id := id c; status := status c; amount := amount c; currency := currency c;
  product := product c; product_price := product_price c;
  customer_name := customer_name c; customer_email := customer_email c;
  customer_billing_address := customer_billing_address c;
  user_metadata := v;
  payment_processor := payment_processor c;
  payment_processor_metadata := payment_processor_metadata c |}.

Definition set_payment_processor_metadata v c := {|
  id := id c; status := status c; amount := amount c; currency := currency c;
  product := product c; product_price := product_price c;
  customer_name := customer_name c; customer_email := customer_email c;
  customer_billing_address := customer_billing_address c;
  user_metadata := user_metadata c;
  payment_processor := payment_processor c;
  payment_processor_metadata := v |}.

(** Request bodies.  [CheckoutUpdate] alone carries [metadata];
    [CheckoutConfirm] adds the confirmation token. *)
Inductive UpdateSchema : Type :=
| CheckoutUpdate (metadata : option (gmap string string))
| CheckoutUpdatePublic
| CheckoutConfirm (confirmation_token_id : option string).

Record UpdateBody : Type := {
  schema : UpdateSchema;
  upd_product_price_id : option UUID;
  upd_amount : option Z;
  upd_customer_billing_address : option Address;
  upd_customer_name : Field (option string);
  upd_customer_email : Field (option string)
}.

Inductive Input : Type :=
| InputNone
| InputId (u : UUID)
| InputAmount (a : Z).

Record ValidationError : Type := {
  err_type : string;
  loc : list string;
  msg : string;
  input : Input
}.

Record SetupIntent : Type := {
  si_id : string;
  si_status : string;
  si_customer : option string;
  si_payment_method : option string
}.

Inductive CheckoutError : Type :=
| PolarRequestValidationError (errors : list ValidationError)
| CheckoutDoesNotExist (checkout_id : UUID) (setup_intent_id : string)
| NotConfirmedCheckout (checkout : Checkout)
| SetupIntentNotSucceeded (checkout : Checkout) (setup_intent_id : string)
| NoCustomerOnSetupIntent (checkout : Checkout) (setup_intent_id : string)
| NoPaymentMethodOnSetupIntent (checkout : Checkout) (setup_intent_id : string).

Definition value_error (field message : string) (i : Input) : CheckoutError :=
  PolarRequestValidationError
    [ {| err_type := "value_error"; loc := ["body"; field];
         msg := message; input := i |} ].

Definition missing (field message : string) : ValidationError :=
  {| err_type := "missing"; loc := ["body"; field];
     msg := message; input := InputNone |}.

(** Calls issued to the payment processor, in the order they are made. *)
Record StripeMetadata : Type := {
  md_type : string;
  md_product_id : UUID;
  md_product_price_id : UUID
}.

Inductive StripeCall : Type :=
| create_customer (name email : string) (address : Address)
| create_setup_intent (confirmation_token : option string)
    (customer : string) (checkout_id : UUID)
| create_subscription (customer currency default_payment_method price : string)
    (metadata : StripeMetadata) (idempotency_checkout : UUID)
| create_invoice (customer currency default_payment_method price : string)
    (metadata : StripeMetadata) (idempotency_checkout : UUID).

(** What the processor answers to [confirm]'s two calls. *)
Record StripeReplies : Type := {
  reply_customer_id : string;
  reply_client_secret : string;
  reply_setup_intent_status : string
}.

Section Service.
(** [product_price_service.get_by_id]: the price table of the session. *)
Variable prices : gmap UUID ProductPrice.

Definition apply_field {A} (f : Field A) (setter : A -> Checkout -> Checkout)
  : M Checkout CheckoutError unit :=
  match f with
  | Unset => ret tt
  | Set_ v => modify (setter v)
  end.

(** [CheckoutService.update], lines 236-331. *)
Definition update (checkout_update : UpdateBody) : M Checkout CheckoutError unit :=
  (match upd_product_price_id checkout_update with
   | Some pid =>
     let* checkout := get in
     match prices !! pid with
     | None => raise (value_error "product_price_id" "Price does not exist." (InputId pid))
     | Some price =>
       if negb (organization_id (price_product price)
                =? organization_id (product checkout))%N
       then raise (value_error "product_price_id" "Price does not exist." (InputId pid))
       else if is_archived price
       then raise (value_error "product_price_id" "Price is archived." (InputId pid))
       else if negb (product_id (price_product price)
                     =? product_id (product checkout))%N
       then raise (value_error "product_price_id"
                     "Price does not belong to the product." (InputId pid))
       else
         modify (set_product_price price) >>
         match price_kind price with
         | ProductPriceFixed a cur =>
           modify (set_amount (Some a)) >> modify (set_currency (Some cur))
         | ProductPriceCustom cur => modify (set_currency (Some cur))
         | ProductPriceFree =>
           modify (set_amount None) >> modify (set_currency None)
         end
     end
   | None => ret tt
   end) >>
  (match upd_amount checkout_update with
   | Some a =>
     let* checkout := get in
     if negb (is_custom (product_price checkout))
     then raise (value_error "amount"
                   "Amount can only be set on custom prices." (InputAmount a))
     else modify (set_amount (Some a))
   | None => ret tt
   end) >>
  (match upd_customer_billing_address checkout_update with
   | Some addr => modify (set_customer_billing_address (Some addr))
   | None => ret tt
   end) >>
  (match schema checkout_update with
   | CheckoutUpdate (Some md) => modify (set_user_metadata md)
   | _ => ret tt
   end) >>
  apply_field (upd_customer_name checkout_update) set_customer_name >>
  apply_field (upd_customer_email checkout_update) set_customer_email.

(** The list of errors [confirm] accumulates, lines 341-368. *)
Definition confirm_errors (checkout : Checkout) : list ValidationError :=
  (if bool_decide (amount checkout = None) && is_custom (product_price checkout)
   then [missing "amount" "Amount is required for custom prices."]
   else [])
  ++ (if bool_decide (customer_name checkout = None)
      then [missing "customer_name" "Field is required."] else [])
  ++ (if bool_decide (customer_email checkout = None)
      then [missing "customer_email" "Field is required."] else [])
  ++ (if bool_decide (customer_billing_address checkout = None)
      then [missing "customer_billing_address" "Field is required."] else []).

Definition confirmation_token (u : UpdateBody) : option string :=
  match schema u with
  | CheckoutConfirm t => t
  | _ => None
  end.

(** [CheckoutService.confirm], lines 333-397.  The state is the checkout
    and the log of processor calls. *)
Definition confirm (replies : StripeReplies) (checkout_confirm : UpdateBody)
  : M (Checkout * list StripeCall) CheckoutError unit :=
  on_fst (update checkout_confirm) >>
  let* st := get in
  let checkout := fst st in
  let errors := confirm_errors checkout in
  if (0 <? length errors)%nat
  then raise (PolarRequestValidationError errors)
  else
    (match customer_name checkout, customer_email checkout,
           customer_billing_address checkout with
     | Some name, Some email, Some addr =>
       when (bool_decide (payment_processor checkout = stripe))
         (modify (fun '(c, calls) =>
            (set_payment_processor_metadata
               {[ "setup_intent_client_secret" := reply_client_secret replies;
                  "setup_intent_status" := reply_setup_intent_status replies ]}
               c,
             (calls ++ [ create_customer name email addr;
                         create_setup_intent
                           (confirmation_token checkout_confirm)
                           (reply_customer_id replies) (id c) ])%list)))
     | _, _, _ => ret tt
     end) >>
    modify (fun '(c, calls) => (set_status confirmed c, calls)).
End Service.

(** The session of [handle_stripe_success]: the checkout table read by
    [self.get] and the processor calls made so far. *)
Record World : Type := {
  checkouts : gmap UUID Checkout;
  stripe_calls : list StripeCall
}.

Definition call_stripe (c : StripeCall) : M World CheckoutError unit :=
  modify (fun w => {| checkouts := checkouts w;
                      stripe_calls := (stripe_calls w ++ [c])%list |}).

(** The object [self.get] returned is mutated in place: the row under
    [checkout_id] becomes [c]. *)
Definition store (checkout_id : UUID) (c : Checkout) : M World CheckoutError unit :=
  modify (fun w => {| checkouts := <[checkout_id := c]> (checkouts w);
                      stripe_calls := stripe_calls w |}).

(** A field [confirm] requires and the checkout lacks: the amount of a
    custom price, the customer's name, email or billing address. *)
Definition is_missing (c : Checkout) (field : string) : Prop :=
  (field = "amount" /\ amount c = None /\ is_custom (product_price c) = true)
  \/ (field = "customer_name" /\ customer_name c = None)
  \/ (field = "customer_email" /\ customer_email c = None)
  \/ (field = "customer_billing_address" /\ customer_billing_address c = None).

(** The terminal statuses of the specification's state machine. *)
Definition is_terminal (s : CheckoutStatus) : bool :=
  match s with
  | succeeded | expired | failed => true
  | open | confirmed => false
  end.

(** The processor call the success callback issues for a checkout: a
    subscription for a recurring price, an invoice otherwise, keyed by the
    checkout's id. *)
Definition success_call (checkout : Checkout)
    (customer payment_method : string) : StripeCall :=
  let price := product_price checkout in
  let metadata :=
    {| md_type := "product";
       md_product_id := product_id (product checkout);
       md_product_price_id := price_id price |} in
  (if is_recurring price then create_subscription else create_invoice)
    customer (default "usd" (currency checkout)) payment_method
    (stripe_price_id price) metadata (id checkout).

(** [CheckoutService.handle_stripe_success], lines 399-453. *)
Definition handle_stripe_success (checkout_id : UUID) (setup_intent : SetupIntent)
  : M World CheckoutError Checkout :=
  let* w := get in
  match checkouts w !! checkout_id with
  | None => raise (CheckoutDoesNotExist checkout_id (si_id setup_intent))
  | Some checkout =>
    if negb (bool_decide (status checkout = confirmed))
    then raise (NotConfirmedCheckout checkout)
    else if negb (String.eqb (si_status setup_intent) "succeeded")
    then raise (SetupIntentNotSucceeded checkout (si_id setup_intent))
    else
      match si_customer setup_intent with
      | None => raise (NoCustomerOnSetupIntent checkout (si_id setup_intent))
      | Some stripe_customer_id =>
        match si_payment_method setup_intent with
        | None => raise (NoPaymentMethodOnSetupIntent checkout (si_id setup_intent))
        | Some stripe_payment_method_id =>
          let product_price := product_price checkout in
          let metadata :=
            {| md_type := "product";
               md_product_id := product_id (product checkout);
               md_product_price_id := price_id product_price |} in
          let cur := default "usd" (currency checkout) in
          (if is_recurring product_price
           then call_stripe
                  (create_subscription stripe_customer_id cur
                     stripe_payment_method_id (stripe_price_id product_price)
                     metadata (id checkout))
           else call_stripe
                  (create_invoice stripe_customer_id cur
                     stripe_payment_method_id (stripe_price_id product_price)
                     metadata (id checkout))) >>
          let checkout' := set_status succeeded checkout in
          store checkout_id checkout' >>
          ret checkout'
        end
      end
  end.

(** The body of a creation request: the fields [create] reads by name, and
    the remaining ones, which it hands to the checkout unchanged. *)
Record CheckoutCreate : Type := {
  cc_product_price_id : UUID;
  cc_amount : option Z;
  cc_customer_billing_address : option Address;
  cc_metadata : gmap string string;
  cc_customer_name : option string;
  cc_customer_email : option string;
  cc_payment_processor : PaymentProcessor
}.

Definition CHECKOUT_CLIENT_SECRET_PREFIX : string := "polar_c_".

(** [CheckoutService.create], lines 143-234.  [writable] is what
    [get_writable_by_id] finds for the caller, [token] the random part of
    the client secret, [new_id] the identifier of the new row.  The result
    is the client secret and the checkout; a new checkout is [open] and has
    no processor metadata. *)
Definition create (writable : gmap UUID ProductPrice) (token : string)
    (new_id : UUID) (checkout_create : CheckoutCreate)
  : result CheckoutError (string * Checkout) :=
  let pid := cc_product_price_id checkout_create in
  match writable !! pid with
  | None => Raise (value_error "product_price_id" "Price does not exist." (InputId pid))
  | Some price =>
    if is_archived price
    then Raise (value_error "product_price_id" "Price is archived." (InputId pid))
    else
      let product := price_product price in
      if product_is_archived product
      then Raise (value_error "product_price_id" "Product is archived." (InputId pid))
      else
        match cc_amount checkout_create, is_custom price with
        | Some a, false =>
          Raise (value_error "amount"
                   "Amount can only be set on custom prices." (InputAmount a))
        | _, _ =>
          let '(amount, currency) :=
            match price_kind price with
            | ProductPriceFixed a cur => (Some a, Some cur)
            | ProductPriceCustom cur => (cc_amount checkout_create, Some cur)
            | ProductPriceFree => (cc_amount checkout_create, None)
            end in
          Ok (CHECKOUT_CLIENT_SECRET_PREFIX ++ token,
              {| id := new_id; status := open;
                 amount := amount; currency := currency;
                 product := product; product_price := price;
                 customer_name := cc_customer_name checkout_create;
                 customer_email := cc_customer_email checkout_create;
                 customer_billing_address :=
                   cc_customer_billing_address checkout_create;
                 user_metadata := cc_metadata checkout_create;
                 payment_processor := cc_payment_processor checkout_create;
                 payment_processor_metadata := ∅ |})%string
        end
  end.

(** What the service keeps true of a checkout: the selected price belongs
    to the checkout's product, and amount and currency follow the kind of
    the price: those of a fixed price, the currency of a custom price,
    neither for a free price. *)
Definition priced_consistently (c : Checkout) : Prop :=
  product_id (price_product (product_price c)) = product_id (product c)
  /\ match price_kind (product_price c) with
     | ProductPriceFixed a cur => amount c = Some a /\ currency c = Some cur
     | ProductPriceCustom cur => currency c = Some cur
     | ProductPriceFree => amount c = None /\ currency c = None
     end.

(** The two calls [confirm] makes for a checkout paid through Stripe. *)
Definition confirm_calls (replies : StripeReplies) (token : option string)
    (c : Checkout) (name email : string) (address : Address) : list StripeCall :=
  [ create_customer name email address;
    create_setup_intent token (reply_customer_id replies) (id c) ].


End Checkout.

(** ** License key service *)

Module LicenseKey.

(** [polar.models.license_key.LicenseKeyStatus]: the statuses the
    specification lists. *)
Inductive LicenseKeyStatus : Type :=
| granted | revoked | disabled.

Global Instance LicenseKeyStatus_eq_dec : EqDecision LicenseKeyStatus.
Proof. solve_decision. Defined.

Record LicenseKey : Type := {
  id : UUID;
  organization_id : UUID;
  user_id : UUID;
  benefit_id : UUID;
  status : LicenseKeyStatus;
  usage : Z;
  limit_usage : option Z;
  limit_activations : option Z;
  expires_at : option Time;
  last_validated_at : option Time
}.

Record LicenseKeyActivation : Type := {
  activation_id : UUID;
  license_key_id : UUID;
  label : string;
  conditions : gmap string string;
  meta : gmap string string;
  deleted_at : option Time
}.

Record LicenseKeyValidate : Type := {
  v_activation_id : option UUID;
  v_conditions : gmap string string;
  v_benefit_id : option UUID;
  v_user_id : option UUID;
  increment_usage : option Z
}.

Record LicenseKeyActivate : Type := {
  a_label : string;
  a_conditions : gmap string string;
  a_meta : gmap string string
}.

Record LicenseKeyDeactivate : Type := {
  d_activation_id : UUID
}.

Inductive Message : Type :=
| Text (s : string)
| OnlyHasMoreUsages (remaining : Z).

Inductive Error : Type :=
| ResourceNotFound (message : option string)
| BadRequest (message : Message)
| NotPermitted (message : string).

(** Python truth value of an optional integer: [None] and [0] are false. *)
Definition truthy (o : option Z) : bool :=
  match o with
  | Some n => negb (n =? 0)
  | None => false
  end.

(** Modelled from the spec: [LicenseKey.is_active] belongs to the model
    class, which is not among the sources; a key is active when its status
    is [granted]. *)
Definition is_active (k : LicenseKey) : bool :=
  bool_decide (status k = granted).

(** Modelled from the spec: [LicenseKey.mark_validated] belongs to the
    model class, which is not among the sources; it marks the key
    validated and applies the usage increment. *)
Definition mark_validated (now : Time) (increment : option Z) (k : LicenseKey)
  : LicenseKey :=
  {| id := id k; organization_id := organization_id k; user_id := user_id k;
     benefit_id := benefit_id k; status := status k;
     usage := match increment with Some n => usage k + n | None => usage k end;
     limit_usage := limit_usage k; limit_activations := limit_activations k;
     expires_at := expires_at k;
     last_validated_at := Some now |}.

(** Modelled from the spec: [LicenseKeyActivation.mark_deleted] belongs to
    the model base class, which is not among the sources; it soft-deletes
    the row by stamping [deleted_at]. *)
Definition mark_deleted (now : Time) (a : LicenseKeyActivation)
  : LicenseKeyActivation :=
  {| activation_id := activation_id a; license_key_id := license_key_id a;
     label := label a; conditions := conditions a; meta := meta a;
     deleted_at := Some now |}.

(** The [WHERE] clause shared by [get_activation_or_raise] and
    [get_activation_count]: rows of this key that are not soft-deleted. *)
Definition live_for (k : LicenseKey) (a : LicenseKeyActivation) : bool :=
  (license_key_id a =? id k)%N && bool_decide (deleted_at a = None).

(** The row [get_activation_or_raise] selects, lines 122-136. *)
Definition find_activation (rows : list LicenseKeyActivation)
    (k : LicenseKey) (aid : UUID) : option LicenseKeyActivation :=
  List.find (fun a => (activation_id a =? aid)%N && live_for k a) rows.

Definition get_activation_or_raise {S} (rows : list LicenseKeyActivation)
    (k : LicenseKey) (aid : UUID) : M S Error LicenseKeyActivation :=
  match find_activation rows k aid with
  | Some record => ret record
  | None => raise (ResourceNotFound None)
  end.

(** Lines 212-271 of [LicenseKeyService.validate]: every rejection that
    does not depend on the usage counter. *)
Definition validate_checks (rows : list LicenseKeyActivation) (now : Time)
    (validate : LicenseKeyValidate)
  : M LicenseKey Error (option LicenseKeyActivation) :=
  let* license_key := get in
  if negb (is_active license_key)
  then raise (ResourceNotFound (Some "License key is no longer active."))
  else if match expires_at license_key with
          | Some t => now >=? t
          | None => false
          end
  then raise (ResourceNotFound (Some "License key has expired."))
  else
    let* activation :=
      match v_activation_id validate with
      | Some aid =>
        let* activation := get_activation_or_raise rows license_key aid in
        if negb (bool_decide (conditions activation = ∅))
           && negb (bool_decide (v_conditions validate = conditions activation))
        then raise (ResourceNotFound
                      (Some "License key does not match required conditions"))
        else ret (Some activation)
      | None => ret None
      end in
    if match v_benefit_id validate with
       | Some b => negb (b =? benefit_id license_key)%N
       | None => false
       end
    then raise (ResourceNotFound (Some "License key does not match given benefit."))
    else if match v_user_id validate with
            | Some u => negb (u =? user_id license_key)%N
            | None => false
            end
    then raise (ResourceNotFound (Some "License key does not match given user."))
    else ret activation.

(** Lines 273-285: the usage budget. *)
Definition check_usage (validate : LicenseKeyValidate) : M LicenseKey Error unit :=
  let* license_key := get in
  if truthy (increment_usage validate) && truthy (limit_usage license_key)
  then
    let remaining := default 0 (limit_usage license_key) - usage license_key in
    if default 0 (increment_usage validate) >? remaining
    then raise (BadRequest (OnlyHasMoreUsages remaining))
    else ret tt
  else ret tt.

(** [LicenseKeyService.validate], lines 205-296.  The state is the key
    object the method mutates; the result is the matched activation. *)
Definition validate (rows : list LicenseKeyActivation) (now : Time)
    (v : LicenseKeyValidate)
  : M LicenseKey Error (option LicenseKeyActivation) :=
  let* activation := validate_checks rows now v in
  check_usage v >>
  modify (mark_validated now (increment_usage v)) >>
  ret activation.

(** [get_activation_count], lines 298-311. *)
Definition get_activation_count (rows : list LicenseKeyActivation)
    (k : LicenseKey) : Z :=
  Z.of_nat (length (List.filter (live_for k) rows)).

(** The identifier the database gives the row at [flush]: one no row has. *)
Definition fresh_id (rows : list LicenseKeyActivation) : UUID :=
  N.succ (foldr N.max 0%N (activation_id <$> rows)).

(** [LicenseKeyService.activate], lines 313-353.  The state is the
    activation table. *)
Definition activate (license_key : LicenseKey) (activate : LicenseKeyActivate)
  : M (list LicenseKeyActivation) Error LicenseKeyActivation :=
  if negb (truthy (limit_activations license_key))
  then raise (NotPermitted "License key does not require activation")
  else
    let* rows := get in
    let current_activation_count := get_activation_count rows license_key in
    if current_activation_count >=? default 0 (limit_activations license_key)
    then raise (NotPermitted "License key activation limit already reached")
    else
      let instance :=
        {| activation_id := fresh_id rows;
           license_key_id := id license_key;
           label := a_label activate;
           conditions := a_conditions activate;
           meta := a_meta activate;
           deleted_at := None |} in
      modify (fun rows => (rows ++ [instance])%list) >>
      ret instance.

(** In-place mutation of the row a query returned: the first row that
    satisfies [p] is replaced by its image under [f]. *)
Fixpoint update_first {A} (p : A -> bool) (f : A -> A) (rows : list A) : list A :=
  match rows with
  | [] => []
  | a :: rest => if p a then f a :: rest else a :: update_first p f rest
  end.

(** [LicenseKeyService.deactivate], lines 355-378. *)
Definition deactivate (now : Time) (license_key : LicenseKey)
    (deactivate : LicenseKeyDeactivate)
  : M (list LicenseKeyActivation) Error bool :=
  let* rows := get in
  let* activation :=
    get_activation_or_raise rows license_key (d_activation_id deactivate) in
  modify (update_first
            (fun a => (activation_id a =? d_activation_id deactivate)%N
                      && live_for license_key a)
            (mark_deleted now)) >>
  ret true.

(** The same request with another usage increment. *)
Definition with_increment (n : option Z) (v : LicenseKeyValidate)
  : LicenseKeyValidate :=
  {| v_activation_id := v_activation_id v; v_conditions := v_conditions v;
     v_benefit_id := v_benefit_id v; v_user_id := v_user_id v;
     increment_usage := n |}.

(** Requests served one after the other against one key. *)
Inductive Request : Type :=
| Activate (body : LicenseKeyActivate)
| Deactivate (now : Time) (body : LicenseKeyDeactivate).

Definition serve (license_key : LicenseKey) (r : Request)
    (rows : list LicenseKeyActivation) : list LicenseKeyActivation :=
  match r with
  | Activate body => snd (activate license_key body rows)
  | Deactivate now body => snd (deactivate now license_key body rows)
  end.

(** The creation schema a grant builds, as far as [user_update_grant] and
    [get_by_grant_or_raise] read it. *)
Record LicenseKeyCreate : Type := {
  c_organization_id : UUID;
  c_user_id : UUID;
  c_benefit_id : UUID;
  c_status : LicenseKeyStatus;
  c_expires_at : option Time;
  c_limit_activations : option Z;
  c_limit_usage : option Z
}.

(** The [WHERE] clause of [get_by_grant_or_raise], lines 110-115. *)
Definition matches_grant (kid organization user benefit : UUID)
    (k : LicenseKey) : bool :=
  (id k =? kid)%N && (organization_id k =? organization)%N
  && (user_id k =? user)%N && (benefit_id k =? benefit)%N.

(** [get_by_grant_or_raise], lines 101-120.  The state is the table of
    keys [_get_select_base] selects from (those not soft-deleted). *)
Definition get_by_grant_or_raise (kid organization user benefit : UUID)
  : M (list LicenseKey) Error LicenseKey :=
  let* keys := get in
  match List.find (matches_grant kid organization user benefit) keys with
  | Some key => ret key
  | None => raise (ResourceNotFound None)
  end.

(** One turn of the loop of [user_update_grant]: the attribute is written
    when the schema's value differs from the current one. *)
Definition updated_attr {A} `{EqDecision A} (current updated : A) : A :=
  if decide (current = updated) then current else updated.

(** The loop of [user_update_grant], lines 431-441, on the key. *)
Definition apply_grant (create_schema : LicenseKeyCreate) (k : LicenseKey)
  : LicenseKey :=
  {| id := id k; organization_id := organization_id k; user_id := user_id k;
     benefit_id := benefit_id k;
     status := updated_attr (status k) (c_status create_schema);
     usage := usage k;
     limit_usage := updated_attr (limit_usage k) (c_limit_usage create_schema);
     limit_activations :=
       updated_attr (limit_activations k) (c_limit_activations create_schema);
     expires_at := updated_attr (expires_at k) (c_expires_at create_schema);
     last_validated_at := last_validated_at k |}.

(** [LicenseKeyService.user_update_grant], lines 416-453. *)
Definition user_update_grant (license_key_id : UUID)
    (create_schema : LicenseKeyCreate) : M (list LicenseKey) Error LicenseKey :=
  let* key :=
    get_by_grant_or_raise license_key_id (c_organization_id create_schema)
      (c_user_id create_schema) (c_benefit_id create_schema) in
  modify (update_first
            (matches_grant license_key_id (c_organization_id create_schema)
               (c_user_id create_schema) (c_benefit_id create_schema))
            (apply_grant create_schema)) >>
  ret (apply_grant create_schema key).

(** Modelled from the spec: [LicenseKey.mark_revoked] belongs to the model
    class, which is not among the sources; it sets the revoked status. *)
Definition mark_revoked (k : LicenseKey) : LicenseKey :=
  {| id := id k; organization_id := organization_id k; user_id := user_id k;
     benefit_id := benefit_id k; status := revoked; usage := usage k;
     limit_usage := limit_usage k; limit_activations := limit_activations k;
     expires_at := expires_at k; last_validated_at := last_validated_at k |}.

(** [LicenseKeyService.user_revoke], lines 474-498; [organization], [user]
    and [benefit] are the ids of the benefit's organization, the user and
    the benefit. *)
Definition user_revoke (organization user benefit license_key_id : UUID)
  : M (list LicenseKey) Error LicenseKey :=
  let* key := get_by_grant_or_raise license_key_id organization user benefit in
  modify (update_first (matches_grant license_key_id organization user benefit)
            mark_revoked) >>
  ret (mark_revoked key).

(** Validation requests served one after the other on one key, each with
    the activation table and the time it sees. *)
Definition validate_all
    (requests : list (list LicenseKeyActivation * Time * LicenseKeyValidate))
    (k : LicenseKey) : LicenseKey :=
  foldl (fun k '(rows, now, v) => snd (validate rows now v k)) k requests.


End LicenseKey.

(** ** Webhook service *)

Module Webhook.

(** The target of a payload: [Organization | User]. *)
Inductive Target : Type :=
| Organization (id : UUID)
| User (id : UUID).

Record WebhookEndpoint : Type := {
  id : UUID;
  format : string;
  events : list string;
  organization_id : option UUID;
  user_id : option UUID;
  deleted_at : option Time
}.

Record WebhookEvent : Type := {
  event_id : UUID;
  webhook_endpoint_id : UUID;
  payload : string
}.

Inductive Job : Type :=
| webhook_event_send (webhook_event_id : UUID).

(** What [payload.get_payload] can raise.  [send_payload] catches the
    first two; anything else leaves the loop. *)
Inductive Signal : Type :=
| UnsupportedTarget (message : string)
| SkipEvent
| OtherException (name : string).

(** [BaseWebhookPayload]: its event type and its serializer. *)
Record BaseWebhookPayload : Type := {
  type : string;
  get_payload : string -> Target -> result Signal string
}.

(** The session and the worker queue: rows added, jobs enqueued, lines
    written to the error log. *)
Record Session : Type := {
  webhook_events : list WebhookEvent;
  jobs : list Job;
  error_log : list string
}.

Definition add (ev : WebhookEvent) (s : Session) : Session :=
  {| webhook_events := webhook_events s ++ [ev];
     jobs := jobs s; error_log := error_log s |}.

Definition enqueue_job (j : Job) (s : Session) : Session :=
  {| webhook_events := webhook_events s;
     jobs := jobs s ++ [j]; error_log := error_log s |}.

Definition log_error (m : string) (s : Session) : Session :=
  {| webhook_events := webhook_events s;
     jobs := jobs s; error_log := error_log s ++ [m] |}.

(** The identifier the database gives a new event row at [flush]. *)
Definition fresh_event_id (s : Session) : UUID :=
  N.succ (foldr N.max 0%N (event_id <$> webhook_events s)).

(** [_get_event_target_endpoints], lines 335-352. *)
Definition get_event_target_endpoints (table : list WebhookEndpoint)
    (event : string) (target : Target) : list WebhookEndpoint :=
  List.filter
    (fun e =>
       bool_decide (deleted_at e = None)
       && existsb (String.eqb event) (events e)
       && match target with
          | Organization oid => bool_decide (organization_id e = Some oid)
          | User uid => bool_decide (user_id e = Some uid)
          end)
    table.

(** The body of the [for] loop of [send_payload], lines 287-304, run over
    the endpoints that remain; [events] is the list built so far.  The
    event is appended to [events] before [flush] gives it its id; the list
    holds the same object, so the id is the one read when the job is
    enqueued. *)
Fixpoint send_loop (payload : BaseWebhookPayload) (target : Target)
    (endpoints : list WebhookEndpoint) (events : list WebhookEvent)
  : M Session Signal (list WebhookEvent) :=
  match endpoints with
  | [] => ret events
  | e :: rest =>
    match get_payload payload (format e) target with
    | Ok payload_data =>
      let* s := get in
      let event_type :=
        {| event_id := fresh_event_id s;
           webhook_endpoint_id := id e;
           payload := payload_data |} in
      modify (add event_type) >>
      modify (enqueue_job (webhook_event_send (event_id event_type))) >>
      send_loop payload target rest (events ++ [event_type])
    | Raise (UnsupportedTarget message) =>
      modify (log_error message) >>
      send_loop payload target rest events
    | Raise SkipEvent =>
      send_loop payload target rest events
    | Raise other => raise other
    end
  end.

(** The endpoints for which serializing the payload succeeds. *)
Definition serializes (p : BaseWebhookPayload) (target : Target)
    (e : WebhookEndpoint) : bool :=
  match get_payload p (format e) target with
  | Ok _ => true
  | Raise _ => false
  end.

(** The outcomes of serialization the loop handles itself: a payload, or
    one of the two signals it catches. *)
Definition handled (p : BaseWebhookPayload) (target : Target)
    (e : WebhookEndpoint) : Prop :=
  forall name, get_payload p (format e) target <> Raise (OtherException name).

(** [WebhookService.send_payload], lines 280-305. *)
Definition send_payload (table : list WebhookEndpoint) (target : Target)
    (payload : BaseWebhookPayload) : M Session Signal (list WebhookEvent) :=
  send_loop payload target
    (get_event_target_endpoints table (type payload) target) [].

(** The lines [send_payload] writes to the error log: the message of each
    [UnsupportedTarget] signal, in the order of the endpoints. *)
Definition unsupported_messages (p : BaseWebhookPayload) (target : Target)
    (endpoints : list WebhookEndpoint) : list string :=
  flat_map (fun e => match get_payload p (format e) target with
                     | Raise (UnsupportedTarget message) => [message]
                     | _ => []
                     end) endpoints.

Inductive WebhookError : Type :=
| NotPermitted.

(** [_can_write_endpoint], lines 354-361; [authz_can] answers
    [authz.can(subject, AccessType.write, endpoint)] for the caller. *)
Definition can_write_endpoint {S} (authz_can : WebhookEndpoint -> bool)
    (endpoint : WebhookEndpoint) : M S WebhookError unit :=
  if authz_can endpoint then ret tt else raise NotPermitted.

(** [WebhookService.delete_endpoint], lines 160-172.  The state is the
    endpoint object. *)
Definition delete_endpoint (authz_can : WebhookEndpoint -> bool) (now : Time)
  : M WebhookEndpoint WebhookError unit :=
  let* endpoint := get in
  can_write_endpoint authz_can endpoint >>
  modify (fun e => {| id := id e; format := format e; events := events e;
                      organization_id := organization_id e;
                      user_id := user_id e; deleted_at := Some now |}).


End Webhook.

(** ** Order reconciliation: amount resolution *)

Module Order.

(** The order service ([polar.order.service]) is not among the sources;
    only its tests are.  Its definitions below follow sections 4.1 and 4.3
    of the specification. *)

Record ProductPrice : Type := {
  price_id : UUID;
  stripe_price_id : string
}.

(** A line of the event: the processor's price reference, the internal
    price id embedded in the nested price record's metadata (custom
    prices), and the proration flag. *)
Record Line : Type := {
  price : string;
  price_metadata_id : option UUID;
  proration : bool
}.

Inductive ProductType : Type :=
| product
| pledge.

Record Invoice : Type := {
  invoice_id : string;
  total : Z;
  tax : option Z;
  amount_paid : Z;
  charge : option string;
  subscription_price_id : option UUID;
  lines : list Line;
  metadata_type : option ProductType
}.

Record Order : Type := {
  amount : Z;
  product_price : ProductPrice;
  stripe_invoice_id : string
}.

Inductive OrderError : Type :=
| NotAnOrderInvoice (invoice : string)
| CantDetermineInvoicePrice (invoice : string)
| ProductPriceDoesNotExist (invoice : string)
| InvoiceWithoutCharge (invoice : string).

Definition get_by_stripe_price_id (prices : list ProductPrice) (ref : string)
  : option ProductPrice :=
  List.find (fun p => String.eqb (stripe_price_id p) ref) prices.

Definition get_by_id (prices : list ProductPrice) (pid : UUID)
  : option ProductPrice :=
  List.find (fun p => (price_id p =? pid)%N) prices.

(** Modelled from the spec: the Amount Resolver's first step, "filters out
    proration-flagged lines first" (section 4.1). *)
Definition non_proration_lines (invoice : Invoice) : list Line :=
  List.filter (fun l => negb (proration l)) (lines invoice).

(** Modelled from the spec: the internal price record of a line; a custom
    price is recovered from the metadata embedded in the line's nested
    price record, any other from the processor's price reference
    (sections 2 and 4.1). *)
Definition line_price (prices : list ProductPrice) (l : Line)
  : option ProductPrice :=
  match price_metadata_id l with
  | Some pid => get_by_id prices pid
  | None => get_by_stripe_price_id prices (price l)
  end.

(** Modelled from the spec: the price the Amount Resolver settles on
    (section 4.1): the single non-proration line; with none left, the
    price id of the subscription-level metadata override; any other count
    is the ambiguous-price error.  A reference that maps to no price
    record is [ProductPriceDoesNotExist] (section 4.3, step 2). *)
Definition resolve_price (prices : list ProductPrice) (invoice : Invoice)
  : result OrderError ProductPrice :=
  match non_proration_lines invoice with
  | [l] =>
    match line_price prices l with
    | Some p => Ok p
    | None => Raise (ProductPriceDoesNotExist (invoice_id invoice))
    end
  | [] =>
    match subscription_price_id invoice with
    | Some pid =>
      match get_by_id prices pid with
      | Some p => Ok p
      | None => Raise (ProductPriceDoesNotExist (invoice_id invoice))
      end
    | None => Raise (CantDetermineInvoicePrice (invoice_id invoice))
    end
  | _ => Raise (CantDetermineInvoicePrice (invoice_id invoice))
  end.

(** Modelled from the spec: "net amount = reported total - reported tax
    (tax defaults to 0 if absent)", computed as it is, without clamping
    (section 4.1). *)
Definition net_amount (invoice : Invoice) : Z :=
  total invoice - default 0 (tax invoice).

(** Modelled from the spec: the Amount Resolver (section 4.1): one price
    and the net amount to record. *)
Definition resolve_amount (prices : list ProductPrice) (invoice : Invoice)
  : result OrderError (ProductPrice * Z) :=
  match resolve_price prices invoice with
  | Ok p => Ok (p, net_amount invoice)
  | Raise e => Raise e
  end.

(** Modelled from the spec: step 1 of section 4.3; an event is order-type
    unless its metadata declares an unrelated product type. *)
Definition is_order_invoice (invoice : Invoice) : bool :=
  match metadata_type invoice with
  | Some pledge => false
  | Some product | None => true
  end.

(** Modelled from the spec: [create_order_from_stripe], steps 1, 2, 3 and
    8 of section 4.3.  A missing charge is fatal except on the zero-amount
    path, where nothing was paid.  The later steps (address, discount,
    checkout linkage, revenue routing, jobs) do not change the order's
    amount or price and are left out. *)
Definition create_order_from_stripe (prices : list ProductPrice)
    (invoice : Invoice) : result OrderError Order :=
  if negb (is_order_invoice invoice)
  then Raise (NotAnOrderInvoice (invoice_id invoice))
  else
    match resolve_amount prices invoice with
    | Raise e => Raise e
    | Ok (p, net) =>
      if bool_decide (charge invoice = None) && negb (amount_paid invoice =? 0)
      then Raise (InvoiceWithoutCharge (invoice_id invoice))
      else Ok {| amount := net; product_price := p;
                 stripe_invoice_id := invoice_id invoice |}
    end.

End Order.

(** ** Authentication service *)

Module Auth.

(** The validator of [LoginResponse.goto_url], lines 25-30 of
    [auth/service.py]; [FRONTEND_BASE_URL] is the setting it reads. *)
Definition goto_polar_url (FRONTEND_BASE_URL : string) (v : option string)
  : result string (option string) :=
  match v with
  | None => Ok None
  | Some url =>
    if String.prefix FRONTEND_BASE_URL url then Ok (Some url)
    else Raise "goto_url has to belong to polar"
  end.

(** What [jwt.decode] raises. *)
Inductive JwtError : Type :=
| DecodeError
| ExpiredSignatureError.

Record User : Type := { user_id : UUID }.

Record PersonalAccessToken : Type := {
  pat_id : UUID;
  pat_user : User
}.

(** [Exception("failed to decode token")], which no [except] clause of
    [get_user_from_auth_header] catches. *)
Inductive AuthError : Type :=
| FailedToDecodeToken.

Section Tokens.
(** [jwt.decode(token, secret)]: the claims of a token, or the error. *)
Variable decode : string -> result JwtError (gmap string UUID).
(** [user_service.get] and [personal_access_token_service.get]. *)
Variable users : gmap UUID User.
Variable pats : gmap UUID PersonalAccessToken.

(** [AuthService.get_user_from_cookie], lines 103-111.  A missing
    ["user_id"] claim is the [KeyError] the method catches. *)
Definition get_user_from_cookie (cookie : string) : option User :=
  match decode cookie with
  | Ok decoded =>
    match decoded !! "user_id" with
    | Some uid => users !! uid
    | None => None
    end
  | Raise _ => None
  end.

(** [AuthService.get_user_from_auth_header], lines 113-138.  The state is
    the list of personal access tokens whose usage was recorded. *)
Definition get_user_from_auth_header (token : string)
  : M (list UUID) AuthError (option User) :=
  match decode token with
  | Raise _ => ret None
  | Ok decoded =>
    match decoded !! "user_id" with
    | Some uid => ret (users !! uid)
    | None =>
      match decoded !! "pat_id" with
      | Some pid =>
        match pats !! pid with
        | None => ret None
        | Some pat =>
          modify (fun recorded => recorded ++ [pat_id pat]) >>
          ret (Some (pat_user pat))
        end
      | None => raise FailedToDecodeToken
      end
    end
  end.
End Tokens.

End Auth.


(** ** Sample data *)

Module Sample.
Import Checkout.

Definition plan : Product :=
  {| product_id := 1; organization_id := 10; product_is_archived := false |}.

Definition addon : Product :=
  {| product_id := 2; organization_id := 10; product_is_archived := false |}.

Definition plan_monthly : ProductPrice :=
  {| price_id := 100; price_product := plan; is_archived := false;
     is_recurring := true; stripe_price_id := "price_plan_monthly";
     price_kind := ProductPriceFixed 1000 "usd" |}.

Definition addon_once : ProductPrice :=
  {| price_id := 200; price_product := addon; is_archived := false;
     is_recurring := false; stripe_price_id := "price_addon_once";
     price_kind := ProductPriceFixed 500 "usd" |}.

Definition price_table : gmap UUID ProductPrice :=
  <[100%N := plan_monthly]> (<[200%N := addon_once]> ∅).

(** A checkout for the monthly plan, in a given status, with no customer
    details yet. *)
Definition checkout_in (i : UUID) (st : CheckoutStatus) : Checkout :=
  {| id := i; status := st; amount := Some 1000; currency := Some "usd";
     product := plan; product_price := plan_monthly;
     customer_name := None; customer_email := None;
     customer_billing_address := None; user_metadata := ∅;
     payment_processor := stripe; payment_processor_metadata := ∅ |}.

Definition world : World :=
  {| checkouts := <[7%N := checkout_in 7 succeeded]>
                    (<[8%N := checkout_in 8 confirmed]> ∅);
     stripe_calls := [] |}.

Definition intent : SetupIntent :=
  {| si_id := "seti_1"; si_status := "succeeded";
     si_customer := Some "cus_1"; si_payment_method := Some "pm_1" |}.

(** A checkout for a pay-what-you-want price with nothing filled in. *)
Definition tip_jar : ProductPrice :=
  {| price_id := 300; price_product := plan; is_archived := false;
     is_recurring := false; stripe_price_id := "price_tip";
     price_kind := ProductPriceCustom "usd" |}.

Definition blank : Checkout :=
  {| id := 9; status := open; amount := None; currency := Some "usd";
     product := plan; product_price := tip_jar;
     customer_name := None; customer_email := None;
     customer_billing_address := None; user_metadata := ∅;
     payment_processor := stripe; payment_processor_metadata := ∅ |}.

Definition replies : StripeReplies :=
  {| reply_customer_id := "cus_9"; reply_client_secret := "seti_9_secret";
     reply_setup_intent_status := "succeeded" |}.

Definition no_change (sch : UpdateSchema) : UpdateBody :=
  {| schema := sch; upd_product_price_id := None; upd_amount := None;
     upd_customer_billing_address := None;
     upd_customer_name := Unset; upd_customer_email := Unset |}.

(** Swap the price for the add-on's, through the ordinary update. *)
Definition swap_to_addon : UpdateBody :=
  {| schema := CheckoutUpdate None; upd_product_price_id := Some 200%N;
     upd_amount := None; upd_customer_billing_address := None;
     upd_customer_name := Unset; upd_customer_email := Unset |}.

(** Rename the customer, through the ordinary update. *)
Definition rename : UpdateBody :=
  {| schema := CheckoutUpdate None; upd_product_price_id := None;
     upd_amount := None; upd_customer_billing_address := None;
     upd_customer_name := Set_ (Some "Eve"); upd_customer_email := Unset |}.

(** A granted key with a budget of ten usages, three of them spent, and
    room for one activation. *)
Definition seat : LicenseKey.LicenseKey :=
  {| LicenseKey.id := 1; LicenseKey.organization_id := 10;
     LicenseKey.user_id := 20; LicenseKey.benefit_id := 30;
     LicenseKey.status := LicenseKey.granted; LicenseKey.usage := 3;
     LicenseKey.limit_usage := Some 10; LicenseKey.limit_activations := Some 1;
     LicenseKey.expires_at := None; LicenseKey.last_validated_at := None |}.

Definition with_limits (usage : Z) (limit_usage : option Z)
    (expires_at : option Time) : LicenseKey.LicenseKey :=
  {| LicenseKey.id := 1; LicenseKey.organization_id := 10;
     LicenseKey.user_id := 20; LicenseKey.benefit_id := 30;
     LicenseKey.status := LicenseKey.granted; LicenseKey.usage := usage;
     LicenseKey.limit_usage := limit_usage;
     LicenseKey.limit_activations := Some 1;
     LicenseKey.expires_at := expires_at;
     LicenseKey.last_validated_at := None |}.

(** A validation request that asks for nothing but a usage increment. *)
Definition use (n : Z) : LicenseKey.LicenseKeyValidate :=
  {| LicenseKey.v_activation_id := None; LicenseKey.v_conditions := ∅;
     LicenseKey.v_benefit_id := None; LicenseKey.v_user_id := None;
     LicenseKey.increment_usage := Some n |}.

Definition laptop : LicenseKey.LicenseKeyActivate :=
  {| LicenseKey.a_label := "laptop"; LicenseKey.a_conditions := ∅;
     LicenseKey.a_meta := ∅ |}.

Definition laptop_row : LicenseKey.LicenseKeyActivation :=
  {| LicenseKey.activation_id := 1; LicenseKey.license_key_id := 1;
     LicenseKey.label := "laptop"; LicenseKey.conditions := ∅;
     LicenseKey.meta := ∅; LicenseKey.deleted_at := None |}.

(** Two endpoints of organization 10 subscribed to the same event: one
    takes raw payloads, the other a format the payload has no rendering
    for. *)
Definition raw_endpoint : Webhook.WebhookEndpoint :=
  {| Webhook.id := 1; Webhook.format := "raw";
     Webhook.events := ["order.created"];
     Webhook.organization_id := Some 10%N; Webhook.user_id := None;
     Webhook.deleted_at := None |}.

Definition chat_endpoint : Webhook.WebhookEndpoint :=
  {| Webhook.id := 2; Webhook.format := "discord";
     Webhook.events := ["order.created"];
     Webhook.organization_id := Some 10%N; Webhook.user_id := None;
     Webhook.deleted_at := None |}.

Definition order_created : Webhook.BaseWebhookPayload :=
  {| Webhook.type := "order.created";
     Webhook.get_payload := fun fmt _ =>
       if String.eqb fmt "raw" then Ok "{}"
       else Raise (Webhook.UnsupportedTarget "unsupported target") |}.

Definition empty_session : Webhook.Session :=
  {| Webhook.webhook_events := []; Webhook.jobs := [];
     Webhook.error_log := [] |}.

(** The invoice the order tests build ([construct_stripe_invoice]):
    total 12000, tax 2000, paid in full, with a charge. *)
Definition invoice_with (lines : list Order.Line) (override : option UUID)
    (type : option Order.ProductType) : Order.Invoice :=
  {| Order.invoice_id := "INVOICE_ID"; Order.total := 12000;
     Order.tax := Some 2000; Order.amount_paid := 12000;
     Order.charge := Some "CHARGE_ID";
     Order.subscription_price_id := override;
     Order.lines := lines; Order.metadata_type := type |}.

Definition line (ref : string) (proration : bool) : Order.Line :=
  {| Order.price := ref; Order.price_metadata_id := None;
     Order.proration := proration |}.

Definition known_price : Order.ProductPrice :=
  {| Order.price_id := 100; Order.stripe_price_id := "PRICE_KNOWN" |}.

(** A request to open a checkout for the pay-what-you-want price, with an
    amount of the customer's choosing. *)
Definition tip_request : Checkout.CheckoutCreate :=
  {| Checkout.cc_product_price_id := 300%N; Checkout.cc_amount := Some 700;
     Checkout.cc_customer_billing_address := None; Checkout.cc_metadata := ∅;
     Checkout.cc_customer_name := None; Checkout.cc_customer_email := None;
     Checkout.cc_payment_processor := Checkout.stripe |}.

Definition writable_prices : gmap UUID Checkout.ProductPrice :=
  <[300%N := tip_jar]> price_table.

(** A payload whose serializer breaks on the chat format. *)
Definition broken_payload : Webhook.BaseWebhookPayload :=
  {| Webhook.type := "order.created";
     Webhook.get_payload := fun fmt _ =>
       if String.eqb fmt "raw" then Ok "{}"
       else Raise (Webhook.OtherException "TypeError") |}.

End Sample.

(** * Properties *)

(** ** The monad: how a sequence of statements runs *)

Lemma bind_ok {S E A B} (c : M S E A) (k : A -> M S E B) s a s' :
  c s = (Ok a, s') -> bind c k s = k a s'.
Proof. intros H. unfold bind. now rewrite H. Qed.

Lemma bind_raise {S E A B} (c : M S E A) (k : A -> M S E B) s e s' :
  c s = (Raise e, s') -> bind c k s = (Raise e, s').
Proof. intros H. unfold bind. now rewrite H. Qed.


(** ** Checkout: the success callback *)

(** C3.  The success callback on a checkout that is not [confirmed] (a
    duplicate callback on a [succeeded] one included) raises
    [NotConfirmedCheckout] and leaves the session as it was: no processor
    call, no status change.  On a [confirmed] checkout, with a succeeded
    setup intent that carries a customer and a payment method, it issues one
    processor call keyed by the checkout and moves the status to
    [succeeded]. *)
Theorem handle_stripe_success_requires_confirmed
    (w : Checkout.World) (checkout_id : UUID)
    (setup_intent : Checkout.SetupIntent) (checkout : Checkout.Checkout) :
  Checkout.checkouts w !! checkout_id = Some checkout ->
  (Checkout.status checkout <> Checkout.confirmed ->
   Checkout.handle_stripe_success checkout_id setup_intent w
   = (Raise (Checkout.NotConfirmedCheckout checkout), w))
  /\ (forall customer payment_method,
      Checkout.status checkout = Checkout.confirmed ->
      Checkout.si_status setup_intent = "succeeded" ->
      Checkout.si_customer setup_intent = Some customer ->
      Checkout.si_payment_method setup_intent = Some payment_method ->
      Checkout.handle_stripe_success checkout_id setup_intent w
      = (Ok (Checkout.set_status Checkout.succeeded checkout),
         {| Checkout.checkouts :=
              <[checkout_id := Checkout.set_status Checkout.succeeded checkout]>
                (Checkout.checkouts w);
            Checkout.stripe_calls :=
              Checkout.stripe_calls w
              ++ [Checkout.success_call checkout customer payment_method] |})
      /\ Checkout.status (Checkout.set_status Checkout.succeeded checkout)
         = Checkout.succeeded).
Proof.
  intros found. split.
  - intros Hst.
    unfold Checkout.handle_stripe_success, bind, get. simpl.
    rewrite found. now rewrite bool_decide_eq_false_2.
  - intros customer payment_method Hst Hsi Hc Hp. split; [|reflexivity].
    unfold Checkout.handle_stripe_success, Checkout.success_call, bind, get.
    simpl. rewrite found, Hst, Hsi, Hc, Hp. simpl.
    destruct (Checkout.is_recurring (Checkout.product_price checkout));
      reflexivity.
Qed.

Lemma handle_stripe_success_requires_confirmed_witness :
  Checkout.handle_stripe_success 7 Sample.intent Sample.world
  = (Raise (Checkout.NotConfirmedCheckout
              (Sample.checkout_in 7 Checkout.succeeded)), Sample.world)
  /\ fst (Checkout.handle_stripe_success 8 Sample.intent Sample.world)
     = Ok (Checkout.set_status Checkout.succeeded
             (Sample.checkout_in 8 Checkout.confirmed)).
Proof.
  split.
  - apply (handle_stripe_success_requires_confirmed
             Sample.world 7%N Sample.intent
             (Sample.checkout_in 7 Checkout.succeeded)).
    + reflexivity.
    + discriminate.
  - pose proof (handle_stripe_success_requires_confirmed
                  Sample.world 8%N Sample.intent
                  (Sample.checkout_in 8 Checkout.confirmed)) as H.
    destruct (H eq_refl) as [_ Hok].
    destruct (Hok "cus_1" "pm_1" eq_refl eq_refl eq_refl eq_refl) as [-> _].
    reflexivity.
Defined.

(** ** Checkout: update *)

(** [update] reads neither the status nor the log; run on the same checkout
    in another status it takes the same path. *)
Lemma update_set_status prices body s c :
  Checkout.update prices body (Checkout.set_status s c)
  = (fst (Checkout.update prices body c),
     Checkout.set_status s (snd (Checkout.update prices body c))).
Proof.
  destruct body as [sch pid amt addr nm em].
  unfold Checkout.update, Checkout.apply_field, bind, get, modify, raise, ret.
  simpl.
  destruct pid as [pid|]; simpl.
  - destruct (prices !! pid) as [price|]; simpl; [|reflexivity].
    destruct (Checkout.organization_id (Checkout.price_product price)
              =? Checkout.organization_id (Checkout.product c))%N;
      simpl; [|reflexivity].
    destruct (Checkout.is_archived price); simpl; [reflexivity|].
    destruct (Checkout.product_id (Checkout.price_product price)
              =? Checkout.product_id (Checkout.product c))%N;
      simpl; [|reflexivity].
    destruct (Checkout.price_kind price) eqn:K; simpl;
      destruct amt; simpl; unfold Checkout.is_custom; simpl; rewrite ?K; simpl;
      try reflexivity;
      destruct addr, sch as [[md|]| |tok], nm, em; reflexivity.
  - destruct amt; simpl.
    + destruct (Checkout.is_custom (Checkout.product_price c)); simpl;
        [|reflexivity].
      destruct addr, sch as [[md|]| |tok], nm, em; reflexivity.
    + destruct addr, sch as [[md|]| |tok], nm, em; reflexivity.
Qed.

Lemma update_keeps_status prices body c :
  Checkout.status (snd (Checkout.update prices body c)) = Checkout.status c.
Proof.
  destruct body as [sch pid amt addr nm em].
  unfold Checkout.update, Checkout.apply_field, bind, get, modify, raise, ret.
  simpl.
  destruct pid as [pid|]; simpl.
  - destruct (prices !! pid) as [price|]; simpl; [|reflexivity].
    destruct (Checkout.organization_id (Checkout.price_product price)
              =? Checkout.organization_id (Checkout.product c))%N;
      simpl; [|reflexivity].
    destruct (Checkout.is_archived price); simpl; [reflexivity|].
    destruct (Checkout.product_id (Checkout.price_product price)
              =? Checkout.product_id (Checkout.product c))%N;
      simpl; [|reflexivity].
    destruct (Checkout.price_kind price) eqn:K; simpl;
      destruct amt; simpl; unfold Checkout.is_custom; simpl; rewrite ?K; simpl;
      try reflexivity;
      destruct addr, sch as [[md|]| |tok], nm, em; reflexivity.
  - destruct amt; simpl.
    + destruct (Checkout.is_custom (Checkout.product_price c)); simpl;
        [|reflexivity].
      destruct addr, sch as [[md|]| |tok], nm, em; reflexivity.
    + destruct addr, sch as [[md|]| |tok], nm, em; reflexivity.
Qed.

Lemma confirm_errors_set_status s c :
  Checkout.confirm_errors (Checkout.set_status s c) = Checkout.confirm_errors c.
Proof. reflexivity. Qed.

(** The claim of C8 as it is written fails: a [succeeded] checkout takes a
    new customer name through [update]. *)
Lemma terminal_checkout_not_immutable :
  ~ (forall prices body c,
        Checkout.is_terminal (Checkout.status c) = true ->
        snd (Checkout.update prices body c) = c).
Proof.
  intros H.
  specialize (H Sample.price_table Sample.rename
                (Sample.checkout_in 7 Checkout.succeeded) eq_refl).
  apply (f_equal Checkout.customer_name) in H.
  discriminate H.
Qed.

(** C8, amended.  [update] has no status guard: on a checkout in any status,
    terminal or not, it takes the same path, applies the same changes and
    never writes the status; [confirm], which starts with [update], reaches
    the same outcome whatever the status was. *)
Theorem update_ignores_status prices replies body calls s c :
  Checkout.update prices body (Checkout.set_status s c)
  = (fst (Checkout.update prices body c),
     Checkout.set_status s (snd (Checkout.update prices body c)))
  /\ Checkout.status (snd (Checkout.update prices body c)) = Checkout.status c
  /\ fst (Checkout.confirm prices replies body (Checkout.set_status s c, calls))
     = fst (Checkout.confirm prices replies body (c, calls)).
Proof.
  split; [apply update_set_status|]. split; [apply update_keeps_status|].
  unfold Checkout.confirm, bind, on_fst, get. simpl.
  rewrite update_set_status.
  destruct (Checkout.update prices body c) as [[[]|e] cu]; simpl; [|reflexivity].
  rewrite confirm_errors_set_status.
  destruct (0 <? length (Checkout.confirm_errors cu))%nat; [reflexivity|].
  destruct (Checkout.customer_name cu), (Checkout.customer_email cu),
    (Checkout.customer_billing_address cu); simpl; try reflexivity.
  unfold when. destruct (bool_decide _); reflexivity.
Qed.

(** The claim of C7 as it is written fails: the ordinary update refuses a
    non-archived price of another product of the same organization. *)
Lemma ordinary_update_other_product_rejected :
  ~ (forall prices body c pid price md,
        Checkout.schema body = Checkout.CheckoutUpdate md ->
        Checkout.upd_product_price_id body = Some pid ->
        prices !! pid = Some price ->
        Checkout.is_archived price = false ->
        Checkout.organization_id (Checkout.price_product price)
        = Checkout.organization_id (Checkout.product c) ->
        Checkout.product_id (Checkout.price_product price)
        <> Checkout.product_id (Checkout.product c) ->
        fst (Checkout.update prices body c) = Ok tt).
Proof.
  intros H.
  specialize (H Sample.price_table Sample.swap_to_addon
                (Sample.checkout_in 7 Checkout.open) 200%N Sample.addon_once None
                eq_refl eq_refl eq_refl eq_refl eq_refl).
  assert (Hne : Checkout.product_id (Checkout.price_product Sample.addon_once)
                <> Checkout.product_id
                     (Checkout.product (Sample.checkout_in 7 Checkout.open)))
    by discriminate.
  specialize (H Hne). vm_compute in H. discriminate H.
Qed.

(** The steps of [update] after the price swap leave the selected price
    alone. *)
Lemma update_without_swap_keeps_price prices body c :
  Checkout.upd_product_price_id body = None ->
  Checkout.product_price (snd (Checkout.update prices body c))
  = Checkout.product_price c.
Proof.
  destruct body as [sch pid amt addr nm em]. simpl. intros ->.
  unfold Checkout.update, Checkout.apply_field, bind, get, modify, raise, ret.
  simpl.
  destruct amt; simpl.
  - destruct (Checkout.is_custom (Checkout.product_price c)); simpl;
      [|reflexivity].
    destruct addr, sch as [[md|]| |tok], nm, em; reflexivity.
  - destruct addr, sch as [[md|]| |tok], nm, em; reflexivity.
Qed.

(** C7, amended.  In every variant of [update] (ordinary, public, confirm) a
    price swap goes through only to a price that exists, belongs to the
    checkout's organization, is not archived and belongs to the checkout's
    product; a price of another product is refused with "Price does not
    belong to the product.", and a price of the same product is accepted
    when no amount comes with it. *)
Theorem update_price_swap_same_product prices body c pid :
  Checkout.upd_product_price_id body = Some pid ->
  (forall c', Checkout.update prices body c = (Ok tt, c') ->
     exists price,
       prices !! pid = Some price
       /\ Checkout.organization_id (Checkout.price_product price)
          = Checkout.organization_id (Checkout.product c)
       /\ Checkout.is_archived price = false
       /\ Checkout.product_id (Checkout.price_product price)
          = Checkout.product_id (Checkout.product c)
       /\ Checkout.product_price c' = price)
  /\ (forall price,
        prices !! pid = Some price ->
        Checkout.organization_id (Checkout.price_product price)
        = Checkout.organization_id (Checkout.product c) ->
        Checkout.is_archived price = false ->
        (Checkout.product_id (Checkout.price_product price)
         <> Checkout.product_id (Checkout.product c) ->
         Checkout.update prices body c
         = (Raise (Checkout.value_error "product_price_id"
                     "Price does not belong to the product."
                     (Checkout.InputId pid)), c))
        /\ (Checkout.product_id (Checkout.price_product price)
            = Checkout.product_id (Checkout.product c) ->
            Checkout.upd_amount body = None ->
            exists c', Checkout.update prices body c = (Ok tt, c')
                       /\ Checkout.product_price c' = price)).
Proof.
  destruct body as [sch pid' amt addr nm em]. simpl. intros ->.
  unfold Checkout.update, Checkout.apply_field, bind, get, modify, raise, ret.
  simpl. split.
  - intros c'. destruct (prices !! pid) as [price|]; simpl; [|discriminate].
    destruct (N.eqb_spec (Checkout.organization_id (Checkout.price_product price))
                (Checkout.organization_id (Checkout.product c))) as [Ho|Ho];
      simpl; [|discriminate].
    destruct (Checkout.is_archived price) eqn:Ha; simpl; [discriminate|].
    destruct (N.eqb_spec (Checkout.product_id (Checkout.price_product price))
                (Checkout.product_id (Checkout.product c))) as [Hp|Hp];
      simpl; [|discriminate].
    intros H. exists price. repeat split; try assumption.
    destruct (Checkout.price_kind price) eqn:K; simpl in H;
      destruct amt; simpl in H; unfold Checkout.is_custom in H; simpl in H;
      rewrite ?K in H; simpl in H; try discriminate H;
      destruct addr, sch as [[md|]| |tok], nm, em; simpl in H;
      inversion H; reflexivity.
  - intros price -> Ho Ha. simpl. rewrite Ho, N.eqb_refl, Ha. simpl. split.
    + intros Hp. apply N.eqb_neq in Hp. rewrite Hp. reflexivity.
    + intros Hp ->. rewrite Hp, N.eqb_refl. simpl.
      destruct (Checkout.price_kind price) eqn:K; simpl;
        destruct addr, sch as [[md|]| |tok], nm, em; simpl;
        eexists; split; reflexivity.
Qed.

Lemma update_price_swap_same_product_witness :
  Checkout.update Sample.price_table Sample.swap_to_addon
    (Sample.checkout_in 7 Checkout.open)
  = (Raise (Checkout.value_error "product_price_id"
              "Price does not belong to the product." (Checkout.InputId 200)),
     Sample.checkout_in 7 Checkout.open).
Proof.
  pose proof (update_price_swap_same_product Sample.price_table
                Sample.swap_to_addon (Sample.checkout_in 7 Checkout.open)
                200%N eq_refl) as [_ H].
  destruct (H Sample.addon_once eq_refl eq_refl eq_refl) as [Hne _].
  apply Hne. discriminate.
Defined.

(** ** Checkout: confirm *)

(** The list [confirm] builds names exactly the missing fields, each once. *)
Lemma confirm_errors_complete c field :
  Checkout.is_missing c field
  <-> exists e, In e (Checkout.confirm_errors c)
                /\ Checkout.loc e = ["body"; field].
Proof.
  unfold Checkout.is_missing, Checkout.confirm_errors, Checkout.missing.
  destruct (Checkout.amount c) as [a|],
    (Checkout.is_custom (Checkout.product_price c)),
    (Checkout.customer_name c) as [n|],
    (Checkout.customer_email c) as [m|],
    (Checkout.customer_billing_address c) as [b|];
    simpl; split;
    try (intros [(-> & ? & ?)|[(-> & ?)|[(-> & ?)|(-> & ?)]]];
         try discriminate;
         first
           [ eexists; split; [left; reflexivity|reflexivity]
           | eexists; split; [right; left; reflexivity|reflexivity]
           | eexists; split; [right; right; left; reflexivity|reflexivity]
           | eexists; split; [right; right; right; left; reflexivity|reflexivity] ]);
    try (intros (e & Hin & Hloc);
         repeat (destruct Hin as [<-|Hin]; [injection Hloc as <-; tauto|]);
         destruct Hin).
Qed.

Lemma confirm_errors_shape c :
  Forall (fun e => Checkout.err_type e = "missing"
                   /\ Checkout.input e = Checkout.InputNone)
         (Checkout.confirm_errors c)
  /\ NoDup (Checkout.loc <$> Checkout.confirm_errors c).
Proof.
  unfold Checkout.confirm_errors, Checkout.missing.
  destruct (Checkout.amount c) as [a|],
    (Checkout.is_custom (Checkout.product_price c)),
    (Checkout.customer_name c) as [n|],
    (Checkout.customer_email c) as [m|],
    (Checkout.customer_billing_address c) as [b|];
    simpl; split;
    repeat constructor; simpl;
    rewrite ?list_elem_of_In; simpl; intuition discriminate.
Qed.

(** C6.  Once the trailing update has been applied, [confirm] checks every
    required field and reports all the missing ones together: the error it
    raises carries one "missing" entry per missing field (the amount of a
    custom price, customer name, email, billing address), each once, and
    the checkout keeps its status.  Only with no field missing does it
    return, and then the status is [confirmed]. *)
Theorem confirm_reports_all_missing_fields prices replies body c calls cu :
  Checkout.update prices body c = (Ok tt, cu) ->
  let errors := Checkout.confirm_errors cu in
  (forall field,
      Checkout.is_missing cu field
      <-> exists e, In e errors /\ Checkout.loc e = ["body"; field])
  /\ Forall (fun e => Checkout.err_type e = "missing"
                      /\ Checkout.input e = Checkout.InputNone) errors
  /\ NoDup (Checkout.loc <$> errors)
  /\ (errors <> [] ->
      Checkout.confirm prices replies body (c, calls)
      = (Raise (Checkout.PolarRequestValidationError errors), (cu, calls))
      /\ Checkout.status cu = Checkout.status c)
  /\ (errors = [] ->
      exists c' calls',
        Checkout.confirm prices replies body (c, calls) = (Ok tt, (c', calls'))
        /\ Checkout.status c' = Checkout.confirmed)
  /\ (forall st,
        Checkout.confirm prices replies body (c, calls) = (Ok tt, st) ->
        Checkout.status (fst st) = Checkout.confirmed
        /\ forall field, ~ Checkout.is_missing cu field).
Proof.
  intros Hupd errors.
  split; [intros field; apply confirm_errors_complete|].
  split; [apply confirm_errors_shape|].
  split; [apply confirm_errors_shape|].
  assert (Hst : Checkout.status cu = Checkout.status c).
  { rewrite <- (update_keeps_status prices body c). now rewrite Hupd. }
  assert (Hraise : errors <> [] ->
                   Checkout.confirm prices replies body (c, calls)
                   = (Raise (Checkout.PolarRequestValidationError errors),
                      (cu, calls))).
  { intros Hne. unfold Checkout.confirm, bind, on_fst, get, raise. simpl.
    rewrite Hupd. simpl. fold errors.
    destruct errors; [congruence|reflexivity]. }
  assert (Hok : errors = [] ->
                exists c' calls',
                  Checkout.confirm prices replies body (c, calls)
                  = (Ok tt, (c', calls'))
                  /\ Checkout.status c' = Checkout.confirmed).
  { intros Hnil.
    unfold Checkout.confirm, bind, on_fst, get, raise, modify, ret, when.
    simpl. rewrite Hupd. simpl. fold errors. rewrite Hnil. simpl.
    destruct (Checkout.customer_name cu), (Checkout.customer_email cu),
      (Checkout.customer_billing_address cu); simpl;
      try (destruct (bool_decide _); simpl);
      eexists; eexists; split; reflexivity. }
  split; [|split; [exact Hok|]].
  - intros Hne. split; [now apply Hraise|exact Hst].
  - intros st Hrun. destruct (decide (errors = [])) as [Hnil|Hne].
    + destruct (Hok Hnil) as (c' & calls' & Hc & Hs).
      rewrite Hc in Hrun. injection Hrun as <-. split; [exact Hs|].
      intros field Hm. apply confirm_errors_complete in Hm.
      destruct Hm as (e & Hin & _). fold errors in Hin. rewrite Hnil in Hin.
      destruct Hin.
    + rewrite (Hraise Hne) in Hrun. discriminate Hrun.
Qed.

Lemma confirm_reports_all_missing_fields_witness :
  Checkout.confirm Sample.price_table Sample.replies
    (Sample.no_change (Checkout.CheckoutConfirm None)) (Sample.blank, [])
  = (Raise (Checkout.PolarRequestValidationError
              [ Checkout.missing "amount" "Amount is required for custom prices.";
                Checkout.missing "customer_name" "Field is required.";
                Checkout.missing "customer_email" "Field is required.";
                Checkout.missing "customer_billing_address" "Field is required." ]),
     (Sample.blank, [])).
Proof.
  pose proof (confirm_reports_all_missing_fields Sample.price_table
                Sample.replies (Sample.no_change (Checkout.CheckoutConfirm None))
                Sample.blank [] Sample.blank eq_refl) as H.
  destruct H as (_ & _ & _ & Hraise & _).
  apply Hraise. discriminate.
Defined.

(** ** License keys: validation *)

(** The checks that precede the usage budget only read the key. *)
Lemma validate_checks_reads_only rows now v k :
  snd (LicenseKey.validate_checks rows now v k) = k.
Proof.
  unfold LicenseKey.validate_checks, LicenseKey.get_activation_or_raise,
    bind, get, raise, ret. simpl.
  destruct (LicenseKey.is_active k); simpl; [|reflexivity].
  destruct (LicenseKey.expires_at k) as [t|]; simpl;
    [destruct (now >=? t); simpl; [reflexivity|]|];
    (destruct (LicenseKey.v_activation_id v) as [aid|]; simpl;
     [destruct (LicenseKey.find_activation rows k aid) as [a|]; simpl;
      [destruct (negb (bool_decide (LicenseKey.conditions a = ∅))
                 && negb (bool_decide (LicenseKey.v_conditions v
                                       = LicenseKey.conditions a)));
       simpl; [reflexivity|]
      |reflexivity]|]);
    destruct (LicenseKey.v_benefit_id v) as [b|]; simpl;
    try (destruct (negb (b =? LicenseKey.benefit_id k)%N); simpl;
         [reflexivity|]);
    destruct (LicenseKey.v_user_id v) as [u|]; simpl;
    try (destruct (negb (u =? LicenseKey.user_id k)%N); simpl);
    reflexivity.
Qed.

Lemma validate_checks_ok rows now v k act :
  fst (LicenseKey.validate_checks rows now v k) = Ok act ->
  LicenseKey.validate_checks rows now v k = (Ok act, k).
Proof.
  intros H. pose proof (validate_checks_reads_only rows now v k) as Hs.
  destruct (LicenseKey.validate_checks rows now v k) as [r s].
  simpl in *. congruence.
Qed.

(** They do not look at the increment either. *)
Lemma validate_checks_with_increment rows now n v k :
  LicenseKey.validate_checks rows now (LicenseKey.with_increment n v) k
  = LicenseKey.validate_checks rows now v k.
Proof. reflexivity. Qed.

(** A key the checks reject is rejected by [validate] with the same error
    and left as it was. *)
Lemma validate_rejected_by_checks rows now v k e :
  fst (LicenseKey.validate_checks rows now v k) = Raise e ->
  LicenseKey.validate rows now v k = (Raise e, k).
Proof.
  intros H. pose proof (validate_checks_reads_only rows now v k) as Hs.
  unfold LicenseKey.validate, bind.
  destruct (LicenseKey.validate_checks rows now v k) as [r s].
  simpl in *. subst. reflexivity.
Qed.

(** The claim of C4 as it is written fails: an expired key with seven usages
    left refuses an increment of one. *)
Lemma validate_budget_alone_does_not_decide :
  ~ (forall rows now v k L n,
        LicenseKey.limit_usage k = Some L ->
        LicenseKey.increment_usage v = Some n ->
        ((exists act, fst (LicenseKey.validate rows now v k) = Ok act)
         <-> n <= L - LicenseKey.usage k)).
Proof.
  intros H.
  destruct (H [] 200 (Sample.use 1) (Sample.with_limits 3 (Some 10) (Some 100))
              10 1 eq_refl eq_refl) as [_ Hback].
  destruct Hback as [act Hact]; [simpl; lia|].
  vm_compute in Hact. discriminate Hact.
Qed.

(** With no increment asked for, the budget is not looked at, even on a key
    whose usage is past its limit. *)
Example validate_no_increment_skips_budget :
  LicenseKey.validate [] 0 (Sample.use 0) (Sample.with_limits 7 (Some 5) None)
  = (Ok None,
     LicenseKey.mark_validated 0 (Some 0) (Sample.with_limits 7 (Some 5) None)).
Proof. reflexivity. Qed.

(** C4, amended.  For a key that passes the other checks of [validate], with
    a non-zero usage limit [L] and usage [U], a call with increment [n]
    succeeds if and only if [n = 0] or [n <= L - U]; on success the usage
    becomes [U + n] and the key is marked validated; otherwise [BadRequest]
    carries the remaining count [L - U] and the key is left as it was. *)
Theorem validate_usage_budget rows now v k act L n :
  fst (LicenseKey.validate_checks rows now v k) = Ok act ->
  LicenseKey.limit_usage k = Some L ->
  L <> 0 ->
  LicenseKey.increment_usage v = Some n ->
  ((exists a k', LicenseKey.validate rows now v k = (Ok a, k'))
   <-> (n = 0 \/ n <= L - LicenseKey.usage k))
  /\ (n = 0 \/ n <= L - LicenseKey.usage k ->
      LicenseKey.validate rows now v k
      = (Ok act, LicenseKey.mark_validated now (Some n) k)
      /\ LicenseKey.usage (LicenseKey.mark_validated now (Some n) k)
         = LicenseKey.usage k + n
      /\ LicenseKey.last_validated_at (LicenseKey.mark_validated now (Some n) k)
         = Some now)
  /\ (n <> 0 -> n > L - LicenseKey.usage k ->
      LicenseKey.validate rows now v k
      = (Raise (LicenseKey.BadRequest
                  (LicenseKey.OnlyHasMoreUsages (L - LicenseKey.usage k))), k)).
Proof.
  intros Hchecks HL HL0 Hn.
  apply validate_checks_ok in Hchecks.
  assert (Hpass : n = 0 \/ n <= L - LicenseKey.usage k ->
                  LicenseKey.validate rows now v k
                  = (Ok act, LicenseKey.mark_validated now (Some n) k)).
  { intros Hle.
    unfold LicenseKey.validate, LicenseKey.check_usage, bind, get, modify, ret,
      raise. rewrite Hchecks. simpl. rewrite HL, Hn. simpl.
    destruct (Z.eqb_spec n 0) as [->|Hn0]; simpl; [reflexivity|].
    destruct (Z.eqb_spec L 0) as [?|_]; [contradiction|]. simpl.
    destruct (Z.gtb_spec n (L - LicenseKey.usage k)); [lia|reflexivity]. }
  assert (Hfail : n <> 0 -> n > L - LicenseKey.usage k ->
                  LicenseKey.validate rows now v k
                  = (Raise (LicenseKey.BadRequest
                              (LicenseKey.OnlyHasMoreUsages
                                 (L - LicenseKey.usage k))), k)).
  { intros Hn0 Hgt.
    unfold LicenseKey.validate, LicenseKey.check_usage, bind, get, modify, ret,
      raise. rewrite Hchecks. simpl. rewrite HL, Hn. simpl.
    destruct (Z.eqb_spec n 0) as [?|_]; [contradiction|].
    destruct (Z.eqb_spec L 0) as [?|_]; [contradiction|]. simpl.
    destruct (Z.gtb_spec n (L - LicenseKey.usage k)); [reflexivity|lia]. }
  split; [|split; [|exact Hfail]].
  - split.
    + intros (a & k' & Hrun).
      destruct (Z.eq_dec n 0) as [?|Hn0]; [now left|]. right.
      destruct (Z_le_gt_dec n (L - LicenseKey.usage k)) as [?|Hgt]; [assumption|].
      rewrite (Hfail Hn0 Hgt) in Hrun. discriminate Hrun.
    + intros Hle. eexists; eexists. now apply Hpass.
  - intros Hle. split; [now apply Hpass|]. split; reflexivity.
Qed.

Lemma validate_usage_budget_witness :
  LicenseKey.validate [] 0 (Sample.use 7) Sample.seat
  = (Ok None, LicenseKey.mark_validated 0 (Some 7) Sample.seat)
  /\ LicenseKey.validate [] 0 (Sample.use 8) Sample.seat
     = (Raise (LicenseKey.BadRequest (LicenseKey.OnlyHasMoreUsages 7)),
        Sample.seat).
Proof.
  split.
  - pose proof (validate_usage_budget [] 0 (Sample.use 7) Sample.seat None
                  10 7 eq_refl eq_refl) as H.
    destruct H as (_ & Hpass & _); [discriminate|reflexivity|].
    apply Hpass. right. simpl. lia.
  - pose proof (validate_usage_budget [] 0 (Sample.use 8) Sample.seat None
                  10 8 eq_refl eq_refl) as H.
    destruct H as (_ & _ & Hfail); [discriminate|reflexivity|].
    apply Hfail; [discriminate|simpl; lia].
Defined.

(** C10.  A key with no usage limit that passes the other checks of
    [validate] (active, not expired, matching activation, benefit and user)
    is never refused on usage grounds: every increment [n] succeeds and the
    usage becomes [U + n], so it passes any bound. *)
Theorem validate_without_limit rows now v k act :
  fst (LicenseKey.validate_checks rows now v k) = Ok act ->
  LicenseKey.limit_usage k = None ->
  (forall n,
      LicenseKey.validate rows now (LicenseKey.with_increment (Some n) v) k
      = (Ok act, LicenseKey.mark_validated now (Some n) k)
      /\ LicenseKey.usage (LicenseKey.mark_validated now (Some n) k)
         = LicenseKey.usage k + n)
  /\ (forall bound, exists n k',
        LicenseKey.validate rows now (LicenseKey.with_increment (Some n) v) k
        = (Ok act, k')
        /\ LicenseKey.usage k' > bound).
Proof.
  intros Hchecks HL. apply validate_checks_ok in Hchecks.
  assert (Hrun : forall n,
             LicenseKey.validate rows now
               (LicenseKey.with_increment (Some n) v) k
             = (Ok act, LicenseKey.mark_validated now (Some n) k)).
  { intros n.
    unfold LicenseKey.validate, LicenseKey.check_usage, bind, get, modify, ret,
      raise. rewrite validate_checks_with_increment, Hchecks. simpl.
    rewrite HL. simpl. rewrite andb_false_r. reflexivity. }
  split.
  - intros n. split; [apply Hrun|reflexivity].
  - intros bound. exists (bound - LicenseKey.usage k + 1).
    eexists. split; [apply Hrun|]. simpl. lia.
Qed.

Lemma validate_without_limit_witness :
  LicenseKey.validate [] 0 (Sample.use 1000000) (Sample.with_limits 3 None None)
  = (Ok None,
     LicenseKey.mark_validated 0 (Some 1000000) (Sample.with_limits 3 None None)).
Proof.
  pose proof (validate_without_limit [] 0 (Sample.use 0)
                (Sample.with_limits 3 None None) None eq_refl eq_refl)
    as [Hrun _].
  exact (proj1 (Hrun 1000000)).
Defined.

(** A limit of zero is read as no limit at all. *)
Example validate_zero_limit_is_no_limit :
  LicenseKey.validate [] 0 (Sample.use 5) (Sample.with_limits 0 (Some 0) None)
  = (Ok None,
     LicenseKey.mark_validated 0 (Some 5) (Sample.with_limits 0 (Some 0) None)).
Proof. reflexivity. Qed.

(** ** License keys: activations *)

Lemma activation_count_app rows a k :
  LicenseKey.get_activation_count (rows ++ [a]) k
  = LicenseKey.get_activation_count rows k
    + (if LicenseKey.live_for k a then 1 else 0).
Proof.
  unfold LicenseKey.get_activation_count.
  rewrite List.filter_app, length_app. simpl.
  destruct (LicenseKey.live_for k a); simpl; lia.
Qed.

Lemma activation_count_nonneg rows k :
  0 <= LicenseKey.get_activation_count rows k.
Proof. unfold LicenseKey.get_activation_count. lia. Qed.

Lemma mark_deleted_not_live now k a :
  LicenseKey.live_for k (LicenseKey.mark_deleted now a) = false.
Proof. unfold LicenseKey.live_for. simpl. apply andb_false_r. Qed.

(** Soft-deleting the row a query found takes exactly one live row away. *)
Lemma activation_count_update_first now k aid rows a :
  LicenseKey.find_activation rows k aid = Some a ->
  LicenseKey.get_activation_count
    (LicenseKey.update_first
       (fun r => (LicenseKey.activation_id r =? aid)%N && LicenseKey.live_for k r)
       (LicenseKey.mark_deleted now) rows) k
  = LicenseKey.get_activation_count rows k - 1.
Proof.
  unfold LicenseKey.find_activation, LicenseKey.get_activation_count.
  induction rows as [|r rest IH]; simpl; [discriminate|].
  destruct (LicenseKey.activation_id r =? aid)%N; simpl.
  - destruct (LicenseKey.live_for k r) eqn:Hlive; simpl.
    + intros _. rewrite mark_deleted_not_live. lia.
    + intros H. rewrite Hlive. apply IH in H. lia.
  - intros H. apply IH in H.
    destruct (LicenseKey.live_for k r); simpl; lia.
Qed.

Lemma activate_without_limit k body rows :
  LicenseKey.truthy (LicenseKey.limit_activations k) = false ->
  LicenseKey.activate k body rows
  = (Raise (LicenseKey.NotPermitted "License key does not require activation"),
     rows).
Proof. intros H. unfold LicenseKey.activate. now rewrite H. Qed.

Lemma activate_at_limit k body rows N :
  LicenseKey.limit_activations k = Some N -> N <> 0 ->
  LicenseKey.get_activation_count rows k >= N ->
  LicenseKey.activate k body rows
  = (Raise (LicenseKey.NotPermitted
              "License key activation limit already reached"), rows).
Proof.
  intros HN HN0 Hge. unfold LicenseKey.activate, bind, get, raise.
  rewrite HN. simpl.
  destruct (Z.eqb_spec N 0) as [?|_]; [contradiction|]. simpl.
  destruct (Z.geb_spec (LicenseKey.get_activation_count rows k) N);
    [reflexivity|lia].
Qed.

Lemma activate_below_limit k body rows N :
  LicenseKey.limit_activations k = Some N -> N <> 0 ->
  LicenseKey.get_activation_count rows k < N ->
  exists instance,
    LicenseKey.activate k body rows = (Ok instance, rows ++ [instance])
    /\ LicenseKey.license_key_id instance = LicenseKey.id k
    /\ LicenseKey.deleted_at instance = None
    /\ LicenseKey.label instance = LicenseKey.a_label body
    /\ LicenseKey.get_activation_count (rows ++ [instance]) k
       = LicenseKey.get_activation_count rows k + 1.
Proof.
  intros HN HN0 Hlt. unfold LicenseKey.activate, bind, get, raise, modify, ret.
  rewrite HN. simpl.
  destruct (Z.eqb_spec N 0) as [?|_]; [contradiction|]. simpl.
  destruct (Z.geb_spec (LicenseKey.get_activation_count rows k) N); [lia|].
  eexists. split; [reflexivity|]. repeat split.
  rewrite activation_count_app. unfold LicenseKey.live_for. simpl.
  now rewrite N.eqb_refl.
Qed.

Lemma deactivate_found now k aid rows a :
  LicenseKey.find_activation rows k aid = Some a ->
  exists rows',
    LicenseKey.deactivate now k {| LicenseKey.d_activation_id := aid |} rows
    = (Ok true, rows')
    /\ LicenseKey.get_activation_count rows' k
       = LicenseKey.get_activation_count rows k - 1.
Proof.
  intros Hfind.
  unfold LicenseKey.deactivate, LicenseKey.get_activation_or_raise,
    bind, get, modify, ret. simpl. rewrite Hfind. simpl.
  eexists. split; [reflexivity|].
  now apply activation_count_update_first with (a := a).
Qed.

Lemma deactivate_not_found now k aid rows :
  LicenseKey.find_activation rows k aid = None ->
  LicenseKey.deactivate now k {| LicenseKey.d_activation_id := aid |} rows
  = (Raise (LicenseKey.ResourceNotFound None), rows).
Proof.
  intros Hfind.
  unfold LicenseKey.deactivate, LicenseKey.get_activation_or_raise,
    bind, get, raise. simpl. now rewrite Hfind.
Qed.

(** One request never takes the key past its limit. *)
Lemma serve_keeps_limit k N r rows :
  LicenseKey.limit_activations k = Some N ->
  LicenseKey.get_activation_count rows k <= N ->
  LicenseKey.get_activation_count (LicenseKey.serve k r rows) k <= N.
Proof.
  intros HN Hle. destruct r as [body|now [aid]]; simpl.
  - destruct (Z.eq_dec N 0) as [->|HN0].
    + rewrite activate_without_limit by now rewrite HN. exact Hle.
    + destruct (Z_lt_ge_dec (LicenseKey.get_activation_count rows k) N)
        as [Hlt|Hge].
      * destruct (activate_below_limit k body rows N HN HN0 Hlt)
          as (inst & -> & _ & _ & _ & Hcount).
        simpl. lia.
      * rewrite (activate_at_limit k body rows N HN HN0 Hge). exact Hle.
  - destruct (LicenseKey.find_activation rows k aid) as [a|] eqn:Hfind.
    + destruct (deactivate_found now k aid rows a Hfind) as (rows' & -> & Hc).
      simpl. lia.
    + rewrite (deactivate_not_found now k aid rows Hfind). exact Hle.
Qed.

Lemma serve_all_keeps_limit k N reqs rows :
  LicenseKey.limit_activations k = Some N ->
  LicenseKey.get_activation_count rows k <= N ->
  LicenseKey.get_activation_count
    (foldl (fun rows r => LicenseKey.serve k r rows) rows reqs) k <= N.
Proof.
  intros HN. revert rows.
  induction reqs as [|r reqs IH]; intros rows Hle; simpl; [exact Hle|].
  apply IH. now apply serve_keeps_limit.
Qed.

(** C5.  [activate] is refused with [NotPermitted] on a key without an
    activation limit, and on a key whose live (not soft-deleted) activations
    have reached the limit [N]; otherwise it inserts exactly one row, live
    and bound to the key.  Hence no sequence of activations and
    deactivations takes the live count past [N]; and on a full key,
    deactivating one activation makes room for exactly one: the next
    activation succeeds, the one after is refused. *)
Theorem activation_limit k N rows body :
  LicenseKey.limit_activations k = Some N ->
  N <> 0 ->
  (forall k0 rows0,
      LicenseKey.truthy (LicenseKey.limit_activations k0) = false ->
      LicenseKey.activate k0 body rows0
      = (Raise (LicenseKey.NotPermitted
                  "License key does not require activation"), rows0))
  /\ (LicenseKey.get_activation_count rows k >= N ->
      LicenseKey.activate k body rows
      = (Raise (LicenseKey.NotPermitted
                  "License key activation limit already reached"), rows))
  /\ (LicenseKey.get_activation_count rows k < N ->
      exists instance,
        LicenseKey.activate k body rows = (Ok instance, rows ++ [instance])
        /\ LicenseKey.license_key_id instance = LicenseKey.id k
        /\ LicenseKey.deleted_at instance = None
        /\ LicenseKey.get_activation_count (rows ++ [instance]) k
           = LicenseKey.get_activation_count rows k + 1)
  /\ (LicenseKey.get_activation_count rows k <= N ->
      forall reqs,
        LicenseKey.get_activation_count
          (foldl (fun rows r => LicenseKey.serve k r rows) rows reqs) k <= N)
  /\ (LicenseKey.get_activation_count rows k = N ->
      forall now aid a body',
        LicenseKey.find_activation rows k aid = Some a ->
        exists rows1 instance rows2,
          LicenseKey.deactivate now k {| LicenseKey.d_activation_id := aid |} rows
          = (Ok true, rows1)
          /\ LicenseKey.get_activation_count rows1 k = N - 1
          /\ LicenseKey.activate k body rows1 = (Ok instance, rows2)
          /\ LicenseKey.get_activation_count rows2 k = N
          /\ LicenseKey.activate k body' rows2
             = (Raise (LicenseKey.NotPermitted
                         "License key activation limit already reached"), rows2)).
Proof.
  intros HN HN0.
  split; [intros k0 rows0; apply activate_without_limit|].
  split; [now apply activate_at_limit|].
  split.
  { intros Hlt.
    destruct (activate_below_limit k body rows N HN HN0 Hlt)
      as (inst & Hrun & Hk & Hd & _ & Hc).
    exists inst. auto. }
  split; [intros Hle reqs; now apply serve_all_keeps_limit|].
  intros Hfull now aid a body' Hfind.
  destruct (deactivate_found now k aid rows a Hfind) as (rows1 & Hd & Hc1).
  assert (Hlt : LicenseKey.get_activation_count rows1 k < N) by lia.
  destruct (activate_below_limit k body rows1 N HN HN0 Hlt)
    as (inst & Hrun & _ & _ & _ & Hc2).
  exists rows1, inst, (rows1 ++ [inst]).
  split; [exact Hd|]. split; [lia|]. split; [exact Hrun|]. split; [lia|].
  apply activate_at_limit with (N := N); [assumption|assumption|lia].
Qed.

Lemma activation_limit_witness :
  LicenseKey.activate Sample.seat Sample.laptop [Sample.laptop_row]
  = (Raise (LicenseKey.NotPermitted
              "License key activation limit already reached"),
     [Sample.laptop_row])
  /\ exists row, LicenseKey.activate Sample.seat Sample.laptop []
                 = (Ok row, [row]).
Proof.
  split.
  - pose proof (activation_limit Sample.seat 1 [Sample.laptop_row]
                  Sample.laptop eq_refl) as H.
    destruct H as (_ & Hfull & _); [discriminate|].
    apply Hfull. vm_compute. discriminate.
  - pose proof (activation_limit Sample.seat 1 [] Sample.laptop eq_refl) as H.
    destruct H as (_ & _ & Hroom & _); [discriminate|].
    destruct Hroom as (row & Hrun & _); [reflexivity|].
    exists row. exact Hrun.
Defined.

(** ** Webhooks: fan-out *)

(** The loop of [send_payload], from any point of the iteration: the
    endpoints that remain add their events after those built so far. *)
Lemma send_loop_spec p target endpoints :
  forall acc s,
    Forall (Webhook.handled p target) endpoints ->
    exists evs s',
      Webhook.send_loop p target endpoints acc s = (Ok (acc ++ evs), s')
      /\ Webhook.webhook_events s' = Webhook.webhook_events s ++ evs
      /\ Webhook.jobs s'
         = Webhook.jobs s
           ++ map (fun ev => Webhook.webhook_event_send (Webhook.event_id ev)) evs
      /\ Forall2 (fun e ev =>
                    Webhook.webhook_endpoint_id ev = Webhook.id e
                    /\ Webhook.get_payload p (Webhook.format e) target
                       = Ok (Webhook.payload ev))
                 (List.filter (Webhook.serializes p target) endpoints) evs.
Proof.
  induction endpoints as [|e rest IH]; intros acc s Hall.
  - exists [], s. simpl. rewrite !app_nil_r. repeat split. constructor.
  - inversion Hall as [|? ? He Hrest]; subst.
    simpl. unfold Webhook.serializes at 1.
    destruct (Webhook.get_payload p (Webhook.format e) target)
      as [data|[message| |name]] eqn:Hp.
    + set (ev := {| Webhook.event_id := Webhook.fresh_event_id s;
                    Webhook.webhook_endpoint_id := Webhook.id e;
                    Webhook.payload := data |}).
      destruct (IH (acc ++ [ev])
                  (Webhook.enqueue_job
                     (Webhook.webhook_event_send (Webhook.event_id ev))
                     (Webhook.add ev s)) Hrest)
        as (evs & s' & Hrun & Hev & Hjobs & Hmatch).
      exists (ev :: evs), s'.
      unfold bind, get, modify. simpl. fold ev.
      simpl in Hrun. rewrite Hrun. simpl in Hev, Hjobs.
      rewrite Hev, Hjobs, <- !app_assoc. simpl.
      repeat split. constructor; [split; [reflexivity|exact Hp]|exact Hmatch].
    + destruct (IH acc (Webhook.log_error message s) Hrest)
        as (evs & s' & Hrun & Hev & Hjobs & Hmatch).
      exists evs, s'. unfold bind, modify. simpl. rewrite Hrun.
      repeat split; assumption.
    + destruct (IH acc s Hrest) as (evs & s' & Hrun & Hev & Hjobs & Hmatch).
      exists evs, s'. rewrite Hrun. repeat split; assumption.
    + exfalso. exact (He name Hp).
Qed.

(** C9.  While [send_payload] goes through the subscribed endpoints, an
    [UnsupportedTarget] or [SkipEvent] raised by the serialization for one
    endpoint is caught and the loop goes on: the call returns, and the
    events it returns are, in order, those of the endpoints whose
    serialization succeeded, each persisted in the session and each with
    its delivery job enqueued. *)
Theorem send_payload_continues_after_skip table target p s :
  Forall (Webhook.handled p target)
         (Webhook.get_event_target_endpoints table (Webhook.type p) target) ->
  exists evs s',
    Webhook.send_payload table target p s = (Ok evs, s')
    /\ Webhook.webhook_events s' = Webhook.webhook_events s ++ evs
    /\ Webhook.jobs s'
       = Webhook.jobs s
         ++ map (fun ev => Webhook.webhook_event_send (Webhook.event_id ev)) evs
    /\ Forall2 (fun e ev =>
                  Webhook.webhook_endpoint_id ev = Webhook.id e
                  /\ Webhook.get_payload p (Webhook.format e) target
                     = Ok (Webhook.payload ev))
               (List.filter (Webhook.serializes p target)
                  (Webhook.get_event_target_endpoints table (Webhook.type p)
                     target))
               evs.
Proof.
  intros Hall. unfold Webhook.send_payload.
  destruct (send_loop_spec p target _ [] s Hall) as (evs & s' & H).
  exists evs, s'. exact H.
Qed.

Lemma send_payload_continues_after_skip_witness :
  exists ev s',
    Webhook.send_payload [Sample.chat_endpoint; Sample.raw_endpoint]
      (Webhook.Organization 10) Sample.order_created Sample.empty_session
    = (Ok [ev], s')
    /\ Webhook.webhook_endpoint_id ev = 1%N
    /\ Webhook.webhook_events s' = [ev]
    /\ Webhook.jobs s' = [Webhook.webhook_event_send (Webhook.event_id ev)].
Proof.
  destruct (send_payload_continues_after_skip
              [Sample.chat_endpoint; Sample.raw_endpoint]
              (Webhook.Organization 10) Sample.order_created
              Sample.empty_session)
    as (evs & s' & Hrun & Hev & Hjobs & Hmatch).
  - repeat constructor; intros name; discriminate.
  - simpl in Hmatch.
    inversion Hmatch as [|e ev l evs' [Hid _] Hrest]; subst.
    inversion Hrest; subst.
    exists ev, s'. simpl in Hev, Hjobs. auto.
Defined.

(** ** Orders: amount resolution *)

(** The claim of C1 as it is written fails: the single non-proration line
    may refer to a price that has no record, and resolution then fails
    (the case of [test_not_existing_product_price]). *)
Lemma single_line_price_may_not_exist :
  ~ (forall prices invoice l,
        Order.non_proration_lines invoice = [l] ->
        exists p,
          Order.resolve_amount prices invoice
          = Ok (p, Order.total invoice - default 0 (Order.tax invoice))).
Proof.
  intros H.
  destruct (H [] (Sample.invoice_with [Sample.line "PRICE_ID" false] None None)
              (Sample.line "PRICE_ID" false) eq_refl) as [p Hp].
  discriminate Hp.
Qed.

(** C1, amended.  For an event with exactly one non-proration line whose
    price reference maps to a price record, amount resolution succeeds with
    that price and the net amount total - tax (tax counted as 0 when
    absent); when the event is moreover order-type and carries a charge (or
    nothing was paid), the order is created with that price and that
    amount.  When the reference maps to no price record, resolution fails
    with [ProductPriceDoesNotExist] and no order is created. *)
Theorem single_line_amount prices invoice l :
  Order.non_proration_lines invoice = [l] ->
  (forall p,
      Order.line_price prices l = Some p ->
      Order.resolve_amount prices invoice
      = Ok (p, Order.total invoice - default 0 (Order.tax invoice))
      /\ (Order.is_order_invoice invoice = true ->
          Order.charge invoice <> None \/ Order.amount_paid invoice = 0 ->
          Order.create_order_from_stripe prices invoice
          = Ok {| Order.amount :=
                    Order.total invoice - default 0 (Order.tax invoice);
                  Order.product_price := p;
                  Order.stripe_invoice_id := Order.invoice_id invoice |}))
  /\ (Order.line_price prices l = None ->
      Order.resolve_amount prices invoice
      = Raise (Order.ProductPriceDoesNotExist (Order.invoice_id invoice))
      /\ forall o, Order.create_order_from_stripe prices invoice <> Ok o)
  /\ (Order.tax invoice = None -> Order.net_amount invoice = Order.total invoice).
Proof.
  intros Hone. split; [|split].
  - intros p Hp.
    assert (Hres : Order.resolve_amount prices invoice
                   = Ok (p, Order.net_amount invoice)).
    { unfold Order.resolve_amount, Order.resolve_price.
      now rewrite Hone, Hp. }
    split; [exact Hres|].
    intros Htype Hcharge. unfold Order.create_order_from_stripe.
    rewrite Htype, Hres. simpl.
    destruct Hcharge as [Hc|Hpaid].
    + rewrite bool_decide_eq_false_2 by exact Hc. reflexivity.
    + rewrite Hpaid. simpl. rewrite andb_false_r. reflexivity.
  - intros Hp.
    assert (Hres : Order.resolve_amount prices invoice
                   = Raise (Order.ProductPriceDoesNotExist
                              (Order.invoice_id invoice))).
    { unfold Order.resolve_amount, Order.resolve_price.
      now rewrite Hone, Hp. }
    split; [exact Hres|].
    intros o. unfold Order.create_order_from_stripe. rewrite Hres.
    destruct (negb (Order.is_order_invoice invoice)); discriminate.
  - intros Htax. unfold Order.net_amount. rewrite Htax. simpl. lia.
Qed.

Lemma single_line_amount_witness :
  Order.create_order_from_stripe [Sample.known_price]
    (Sample.invoice_with
       [Sample.line "PRICE_1" true; Sample.line "PRICE_2" true;
        Sample.line "PRICE_KNOWN" false] None None)
  = Ok {| Order.amount := 10000; Order.product_price := Sample.known_price;
          Order.stripe_invoice_id := "INVOICE_ID" |}.
Proof.
  pose proof (single_line_amount [Sample.known_price]
                (Sample.invoice_with
                   [Sample.line "PRICE_1" true; Sample.line "PRICE_2" true;
                    Sample.line "PRICE_KNOWN" false] None None)
                (Sample.line "PRICE_KNOWN" false) eq_refl) as [H _].
  destruct (H Sample.known_price eq_refl) as [_ Horder].
  apply Horder; [reflexivity|left; discriminate].
Defined.

(** The claim of C2 as it is written fails: an event that is not
    order-type is turned away before its lines are looked at. *)
Lemma not_an_order_invoice_comes_first :
  ~ (forall prices invoice,
        length (Order.non_proration_lines invoice) <> 1%nat ->
        Order.subscription_price_id invoice = None ->
        Order.create_order_from_stripe prices invoice
        = Raise (Order.CantDetermineInvoicePrice (Order.invoice_id invoice))).
Proof.
  intros H.
  assert (Hlen : length (Order.non_proration_lines
                           (Sample.invoice_with [] None (Some Order.pledge)))
                 <> 1%nat) by (simpl; lia).
  specialize (H [] (Sample.invoice_with [] None (Some Order.pledge))
                Hlen eq_refl).
  discriminate H.
Qed.

(** An override that names no price record resolves to no price. *)
Example override_price_may_not_exist :
  Order.resolve_amount []
    (Sample.invoice_with [Sample.line "PRICE_1" true] (Some 100%N) None)
  = Raise (Order.ProductPriceDoesNotExist "INVOICE_ID").
Proof. reflexivity. Qed.

(** C2, amended.  For an event with zero or several non-proration lines and
    no subscription-level override, amount resolution fails with
    [CantDetermineInvoicePrice]; reconciliation creates no order, and when
    the event is order-type that is the error it fails with.  Several
    non-proration lines fail so with or without an override.  With no
    non-proration line and an override, the override's price is used when
    it names a price record; when it names none the failure is
    [ProductPriceDoesNotExist]. *)
Theorem ambiguous_invoice_price prices invoice :
  length (Order.non_proration_lines invoice) <> 1%nat ->
  (Order.subscription_price_id invoice = None ->
   Order.resolve_amount prices invoice
   = Raise (Order.CantDetermineInvoicePrice (Order.invoice_id invoice))
   /\ (Order.is_order_invoice invoice = true ->
       Order.create_order_from_stripe prices invoice
       = Raise (Order.CantDetermineInvoicePrice (Order.invoice_id invoice)))
   /\ forall o, Order.create_order_from_stripe prices invoice <> Ok o)
  /\ ((2 <= length (Order.non_proration_lines invoice))%nat ->
      Order.resolve_amount prices invoice
      = Raise (Order.CantDetermineInvoicePrice (Order.invoice_id invoice)))
  /\ (Order.non_proration_lines invoice = [] ->
      forall pid,
        Order.subscription_price_id invoice = Some pid ->
        (forall p, Order.get_by_id prices pid = Some p ->
                   Order.resolve_amount prices invoice
                   = Ok (p, Order.total invoice - default 0 (Order.tax invoice)))
        /\ (Order.get_by_id prices pid = None ->
            Order.resolve_amount prices invoice
            = Raise (Order.ProductPriceDoesNotExist (Order.invoice_id invoice)))).
Proof.
  intros Hlen. split; [|split].
  - intros Hnone.
    assert (Hres : Order.resolve_amount prices invoice
                   = Raise (Order.CantDetermineInvoicePrice
                              (Order.invoice_id invoice))).
    { unfold Order.resolve_amount, Order.resolve_price. rewrite Hnone.
      destruct (Order.non_proration_lines invoice) as [|l [|l' rest]];
        simpl in *; [reflexivity|congruence|reflexivity]. }
    split; [exact Hres|]. split.
    + intros Htype. unfold Order.create_order_from_stripe.
      now rewrite Htype, Hres.
    + intros o. unfold Order.create_order_from_stripe. rewrite Hres.
      destruct (negb (Order.is_order_invoice invoice)); discriminate.
  - intros Htwo. unfold Order.resolve_amount, Order.resolve_price.
    destruct (Order.non_proration_lines invoice) as [|l [|l' rest]];
      simpl in *; [lia|lia|reflexivity].
  - intros Hnil pid Hpid.
    unfold Order.resolve_amount, Order.resolve_price, Order.net_amount.
    rewrite Hnil, Hpid. split.
    + intros p ->. reflexivity.
    + intros ->. reflexivity.
Qed.

Lemma ambiguous_invoice_price_witness :
  Order.create_order_from_stripe [Sample.known_price]
    (Sample.invoice_with
       [Sample.line "PRICE_1" false; Sample.line "PRICE_2" false] None None)
  = Raise (Order.CantDetermineInvoicePrice "INVOICE_ID")
  /\ Order.resolve_amount [Sample.known_price]
       (Sample.invoice_with
          [Sample.line "PRICE_1" true; Sample.line "PRICE_2" true]
          (Some 100%N) None)
     = Ok (Sample.known_price, 10000).
Proof.
  split.
  - pose proof (ambiguous_invoice_price [Sample.known_price]
                  (Sample.invoice_with
                     [Sample.line "PRICE_1" false; Sample.line "PRICE_2" false]
                     None None)) as H.
    destruct H as [H _]; [simpl; lia|].
    destruct (H eq_refl) as (_ & Horder & _).
    apply Horder. reflexivity.
  - pose proof (ambiguous_invoice_price [Sample.known_price]
                  (Sample.invoice_with
                     [Sample.line "PRICE_1" true; Sample.line "PRICE_2" true]
                     (Some 100%N) None)) as H.
    destruct H as (_ & _ & H); [simpl; lia|].
    destruct (H eq_refl 100%N eq_refl) as [Hok _].
    apply (Hok Sample.known_price). reflexivity.
Defined.

(** * Further properties of the services *)

(** ** Checkout: creation and the pricing invariant *)

(** X1.  [create] returns a checkout exactly when the price is one the
    caller may write, neither it nor its product is archived, and an amount
    is given only for a custom price.  The checkout it returns is [open],
    carries that price and its product, takes the amount and currency of a
    fixed price, the caller's amount and the currency of a custom price and
    neither for a free one, and its client secret is the fixed prefix
    followed by the token. *)
Theorem create_outcomes writable token new_id body :
  (forall secret c,
      Checkout.create writable token new_id body = Ok (secret, c) ->
      exists price,
        writable !! Checkout.cc_product_price_id body = Some price
        /\ Checkout.is_archived price = false
        /\ Checkout.product_is_archived (Checkout.price_product price) = false
        /\ (Checkout.cc_amount body <> None -> Checkout.is_custom price = true)
        /\ secret = ("polar_c_" ++ token)%string
        /\ Checkout.status c = Checkout.open
        /\ Checkout.id c = new_id
        /\ Checkout.product_price c = price
        /\ Checkout.product c = Checkout.price_product price
        /\ Checkout.priced_consistently c
        /\ (Checkout.is_custom price = true ->
            Checkout.amount c = Checkout.cc_amount body))
  /\ (forall price,
        writable !! Checkout.cc_product_price_id body = Some price ->
        Checkout.is_archived price = false ->
        Checkout.product_is_archived (Checkout.price_product price) = false ->
        Checkout.cc_amount body = None \/ Checkout.is_custom price = true ->
        exists secret c,
          Checkout.create writable token new_id body = Ok (secret, c)).
Proof.
  unfold Checkout.create. split.
  - intros secret c.
    destruct (writable !! Checkout.cc_product_price_id body) as [price|];
      [|discriminate].
    destruct (Checkout.is_archived price) eqn:Ha; [discriminate|].
    destruct (Checkout.product_is_archived (Checkout.price_product price))
      eqn:Hpa; [discriminate|].
    unfold Checkout.is_custom, Checkout.priced_consistently.
    destruct (Checkout.cc_amount body) as [a|] eqn:Hamt,
      (Checkout.price_kind price) as [pa cur|cur|] eqn:K; simpl;
      try discriminate; intros H; injection H as <- <-; exists price;
      simpl; rewrite ?K; repeat split; auto; try congruence.
  - intros price -> -> -> Hamt. unfold Checkout.is_custom in *.
    destruct (Checkout.cc_amount body) as [a|],
      (Checkout.price_kind price) as [pa cur|cur|];
      simpl; destruct Hamt; try discriminate; eexists; eexists; reflexivity.
Qed.

Lemma create_outcomes_witness :
  exists c,
    Checkout.create Sample.writable_prices "t0k3n" 11 Sample.tip_request
    = Ok ("polar_c_t0k3n", c)
    /\ Checkout.amount c = Some 700
    /\ Checkout.currency c = Some "usd".
Proof.
  destruct (create_outcomes Sample.writable_prices "t0k3n" 11 Sample.tip_request)
    as [Hshape Hruns].
  destruct (Hruns Sample.tip_jar eq_refl eq_refl eq_refl (or_intror eq_refl))
    as (secret & c & Hrun).
  destruct (Hshape secret c Hrun)
    as (price & Hprice & _ & _ & _ & -> & _ & _ & Hp & _ & [_ Hkind] & Hamt).
  injection Hprice as <-. exists c. split; [exact Hrun|].
  split; [now apply Hamt|]. rewrite Hp in Hkind. exact Hkind.
Defined.

Lemma update_keeps_pricing_inv prices body c :
  Checkout.priced_consistently c ->
  Checkout.priced_consistently (snd (Checkout.update prices body c)).
Proof.
  intros [Hprod Hkind]. destruct body as [sch pid amt addr nm em].
  unfold Checkout.update, Checkout.apply_field, bind, get, modify, raise, ret.
  simpl. destruct pid as [pid|]; simpl.
  - destruct (prices !! pid) as [price|]; simpl; [|split; assumption].
    destruct (Checkout.organization_id (Checkout.price_product price)
              =? Checkout.organization_id (Checkout.product c))%N;
      simpl; [|split; assumption].
    destruct (Checkout.is_archived price); simpl; [split; assumption|].
    destruct (N.eqb_spec (Checkout.product_id (Checkout.price_product price))
                (Checkout.product_id (Checkout.product c))) as [Hp|Hp];
      simpl; [|split; assumption].
    destruct (Checkout.price_kind price) eqn:K; simpl;
      destruct amt; simpl; unfold Checkout.is_custom; simpl; rewrite ?K; simpl;
      try (destruct addr, sch as [[md|]| |tok], nm, em; simpl);
      unfold Checkout.priced_consistently; simpl; rewrite ?K; auto.
  - destruct amt as [a|]; simpl.
    + destruct (Checkout.is_custom (Checkout.product_price c)) eqn:C; simpl;
        [|split; assumption].
      unfold Checkout.is_custom in C.
      destruct addr, sch as [[md|]| |tok], nm, em; simpl;
        unfold Checkout.priced_consistently; simpl;
        (split; [assumption|]);
        destruct (Checkout.price_kind (Checkout.product_price c));
        try discriminate; assumption.
    + destruct addr, sch as [[md|]| |tok], nm, em; simpl;
        unfold Checkout.priced_consistently; simpl; split; assumption.
Qed.

(** X2.  A checkout whose amount and currency follow its price stays so
    through [update] and [confirm], whatever the request is and whether the
    call returns or raises. *)
Theorem pricing_invariant_kept prices replies body c calls :
  Checkout.priced_consistently c ->
  Checkout.priced_consistently (snd (Checkout.update prices body c))
  /\ Checkout.priced_consistently
       (fst (snd (Checkout.confirm prices replies body (c, calls)))).
Proof.
  intros Hinv. split; [now apply update_keeps_pricing_inv|].
  pose proof (update_keeps_pricing_inv prices body c Hinv) as Hcu.
  unfold Checkout.confirm, bind, on_fst, get, raise, modify, ret, when. simpl.
  destruct (Checkout.update prices body c) as [[[]|e] cu]; simpl in *;
    [|exact Hcu].
  destruct (0 <? length (Checkout.confirm_errors cu))%nat; simpl; [exact Hcu|].
  destruct (Checkout.customer_name cu), (Checkout.customer_email cu),
    (Checkout.customer_billing_address cu); simpl;
    try (destruct (bool_decide _); simpl); exact Hcu.
Qed.

Lemma pricing_invariant_kept_witness :
  Checkout.priced_consistently
    (snd (Checkout.update Sample.price_table Sample.rename
            (Sample.checkout_in 7 Checkout.open))).
Proof.
  apply (pricing_invariant_kept Sample.price_table Sample.replies Sample.rename
           (Sample.checkout_in 7 Checkout.open) []).
  split; [reflexivity|split; reflexivity].
Defined.

(** X3.  An update that went through changes nothing when it is applied
    once more. *)
Theorem update_idempotent prices body c c' :
  Checkout.update prices body c = (Ok tt, c') ->
  Checkout.update prices body c' = (Ok tt, c').
Proof.
  destruct body as [sch pid amt addr nm em].
  unfold Checkout.update, Checkout.apply_field, bind, get, modify, raise, ret.
  simpl. destruct pid as [pid|]; simpl.
  - destruct (prices !! pid) as [price|]; simpl; [|discriminate].
    destruct (Checkout.organization_id (Checkout.price_product price)
              =? Checkout.organization_id (Checkout.product c))%N eqn:Ho;
      simpl; [|discriminate].
    destruct (Checkout.is_archived price) eqn:Ha; simpl; [discriminate|].
    destruct (Checkout.product_id (Checkout.price_product price)
              =? Checkout.product_id (Checkout.product c))%N eqn:Hp;
      simpl; [|discriminate].
    destruct (Checkout.price_kind price) eqn:K; simpl;
      destruct amt; simpl; unfold Checkout.is_custom; simpl; rewrite ?K; simpl;
      try discriminate;
      destruct addr, sch as [[md|]| |tok], nm, em; simpl;
      intros H; injection H as <-; simpl; rewrite Ho, Hp; simpl;
      rewrite ?K; reflexivity.
  - destruct amt as [a|]; simpl.
    + destruct (Checkout.is_custom (Checkout.product_price c)) eqn:C; simpl;
        [|discriminate].
      destruct addr, sch as [[md|]| |tok], nm, em; simpl;
        intros H; injection H as <-; simpl; rewrite C; reflexivity.
    + destruct addr, sch as [[md|]| |tok], nm, em; simpl;
        intros H; injection H as <-; reflexivity.
Qed.

Lemma update_idempotent_witness :
  Checkout.update Sample.price_table Sample.rename
    (Checkout.set_customer_name (Some "Eve") (Sample.checkout_in 7 Checkout.open))
  = (Ok tt,
     Checkout.set_customer_name (Some "Eve") (Sample.checkout_in 7 Checkout.open)).
Proof.
  apply (update_idempotent Sample.price_table Sample.rename
           (Sample.checkout_in 7 Checkout.open)).
  reflexivity.
Defined.

(** X4.  [update] is not all-or-nothing: when a request swaps to a valid
    price that is not a custom price and also sends an amount, the call
    raises "Amount can only be set on custom prices." and the checkout is
    left with the new price already selected. *)
Theorem update_amount_rejected_after_swap prices body c pid price a :
  Checkout.upd_product_price_id body = Some pid ->
  Checkout.upd_amount body = Some a ->
  prices !! pid = Some price ->
  Checkout.organization_id (Checkout.price_product price)
  = Checkout.organization_id (Checkout.product c) ->
  Checkout.product_id (Checkout.price_product price)
  = Checkout.product_id (Checkout.product c) ->
  Checkout.is_archived price = false ->
  Checkout.is_custom price = false ->
  fst (Checkout.update prices body c)
  = Raise (Checkout.value_error "amount"
             "Amount can only be set on custom prices." (Checkout.InputAmount a))
  /\ Checkout.product_price (snd (Checkout.update prices body c)) = price.
Proof.
  destruct body as [sch pid' amt addr nm em]. simpl.
  intros -> -> Hprice Ho Hp Ha Hc.
  unfold Checkout.update, Checkout.apply_field, bind, get, modify, raise, ret.
  simpl. rewrite Hprice. simpl. rewrite Ho, Hp, !N.eqb_refl, Ha. simpl.
  unfold Checkout.is_custom in *.
  destruct (Checkout.price_kind price) eqn:K; simpl; try discriminate;
    unfold Checkout.is_custom; simpl; rewrite K; simpl; split; reflexivity.
Qed.

Lemma update_amount_rejected_after_swap_witness :
  Checkout.product_price
    (snd (Checkout.update Sample.price_table
            {| Checkout.schema := Checkout.CheckoutUpdatePublic;
               Checkout.upd_product_price_id := Some 100%N;
               Checkout.upd_amount := Some 5;
               Checkout.upd_customer_billing_address := None;
               Checkout.upd_customer_name := Unset;
               Checkout.upd_customer_email := Unset |}
            Sample.blank))
  = Sample.plan_monthly.
Proof.
  apply (update_amount_rejected_after_swap Sample.price_table _ Sample.blank
           100%N Sample.plan_monthly 5); reflexivity.
Defined.

(** ** Checkout: the success callback and the processor *)

(** X5.  The success callback either raises and leaves the session exactly
    as it was, or returns: then the checkout was [confirmed], it is stored
    as [succeeded], nothing else of it changes, and exactly one processor
    call was issued, keyed by the checkout. *)
Theorem handle_stripe_success_all_or_nothing checkout_id setup_intent w :
  (exists e,
      Checkout.handle_stripe_success checkout_id setup_intent w = (Raise e, w))
  \/ (exists c customer payment_method,
        Checkout.checkouts w !! checkout_id = Some c
        /\ Checkout.status c = Checkout.confirmed
        /\ Checkout.si_customer setup_intent = Some customer
        /\ Checkout.si_payment_method setup_intent = Some payment_method
        /\ Checkout.handle_stripe_success checkout_id setup_intent w
           = (Ok (Checkout.set_status Checkout.succeeded c),
              {| Checkout.checkouts :=
                   <[checkout_id := Checkout.set_status Checkout.succeeded c]>
                     (Checkout.checkouts w);
                 Checkout.stripe_calls :=
                   Checkout.stripe_calls w
                   ++ [Checkout.success_call c customer payment_method] |})).
Proof.
  destruct (Checkout.checkouts w !! checkout_id) as [c|] eqn:Hfound.
  - destruct (decide (Checkout.status c = Checkout.confirmed)) as [Hst|Hst].
    + destruct (String.eqb (Checkout.si_status setup_intent) "succeeded")
        eqn:Hsi.
      * apply String.eqb_eq in Hsi.
        destruct (Checkout.si_customer setup_intent) as [customer|] eqn:Hc.
        -- destruct (Checkout.si_payment_method setup_intent)
             as [payment_method|] eqn:Hp.
           ++ right. exists c, customer, payment_method.
              repeat split; try assumption.
              unfold Checkout.handle_stripe_success, Checkout.success_call,
                bind, get. simpl.
              rewrite Hfound, Hst, Hsi, Hc, Hp. simpl.
              destruct (Checkout.is_recurring (Checkout.product_price c));
                reflexivity.
           ++ left. eexists.
              unfold Checkout.handle_stripe_success, bind, get, raise. simpl.
              rewrite Hfound, Hst, Hsi, Hc, Hp. reflexivity.
        -- left. eexists.
           unfold Checkout.handle_stripe_success, bind, get, raise. simpl.
           rewrite Hfound, Hst, Hsi, Hc. reflexivity.
      * left. eexists.
        unfold Checkout.handle_stripe_success, bind, get, raise. simpl.
        rewrite Hfound, Hst, Hsi. reflexivity.
    + left. eexists.
      unfold Checkout.handle_stripe_success, bind, get, raise. simpl.
      rewrite Hfound. rewrite bool_decide_eq_false_2 by exact Hst. reflexivity.
  - left. eexists.
    unfold Checkout.handle_stripe_success, bind, get, raise. simpl.
    rewrite Hfound. reflexivity.
Qed.

(** X6.  Once the success callback has returned for a checkout, delivering
    it again, with any setup intent, raises [NotConfirmedCheckout] and
    issues no further processor call. *)
Theorem handle_stripe_success_twice checkout_id setup_intent w c w' :
  Checkout.handle_stripe_success checkout_id setup_intent w = (Ok c, w') ->
  forall again,
    Checkout.handle_stripe_success checkout_id again w'
    = (Raise (Checkout.NotConfirmedCheckout c), w')
    /\ length (Checkout.stripe_calls w') = S (length (Checkout.stripe_calls w)).
Proof.
  intros Hrun again.
  destruct (handle_stripe_success_all_or_nothing checkout_id setup_intent w)
    as [[e He]|(c0 & cu & pm & Hfound & Hst & _ & _ & Hok)].
  - rewrite He in Hrun. discriminate Hrun.
  - rewrite Hok in Hrun. injection Hrun as <- <-. split.
    + unfold Checkout.handle_stripe_success, bind, get, raise. simpl.
      rewrite lookup_insert_eq. reflexivity.
    + simpl. rewrite length_app. simpl. lia.
Qed.

Lemma handle_stripe_success_twice_witness :
  exists c w',
    Checkout.handle_stripe_success 8 Sample.intent Sample.world = (Ok c, w')
    /\ Checkout.handle_stripe_success 8 Sample.intent w'
       = (Raise (Checkout.NotConfirmedCheckout c), w').
Proof.
  destruct (Checkout.handle_stripe_success 8 Sample.intent Sample.world)
    as [[c|e] w'] eqn:Hrun.
  - exists c, w'. split; [reflexivity|].
    apply (handle_stripe_success_twice 8%N Sample.intent Sample.world c w' Hrun).
  - vm_compute in Hrun. discriminate Hrun.
Defined.

(** X7.  [confirm] talks to the processor only when it goes through: a call
    that raises leaves the log of processor calls as it was; a call that
    returns on a Stripe checkout has added exactly the customer creation and
    the setup intent, made from the checkout's name, email and address, and
    has stored the intent's client secret and status on the checkout; on
    another processor it adds nothing. *)
Theorem confirm_processor_calls prices replies body c calls :
  match Checkout.confirm prices replies body (c, calls) with
  | (Raise _, (_, calls')) => calls' = calls
  | (Ok _, (c', calls')) =>
    Checkout.status c' = Checkout.confirmed
    /\ if bool_decide (Checkout.payment_processor c' = Checkout.stripe)
       then exists name email address,
           Checkout.customer_name c' = Some name
           /\ Checkout.customer_email c' = Some email
           /\ Checkout.customer_billing_address c' = Some address
           /\ calls' = calls
                       ++ Checkout.confirm_calls replies
                            (Checkout.confirmation_token body) c'
                            name email address
           /\ Checkout.payment_processor_metadata c'
              = {[ "setup_intent_client_secret" :=
                     Checkout.reply_client_secret replies;
                   "setup_intent_status" :=
                     Checkout.reply_setup_intent_status replies ]}
       else calls' = calls
  end.
Proof.
  unfold Checkout.confirm, bind, on_fst, get, raise, modify, ret, when. simpl.
  destruct (Checkout.update prices body c) as [[[]|e] cu]; simpl;
    [|reflexivity].
  unfold Checkout.confirm_errors.
  destruct (Checkout.customer_name cu) as [name|] eqn:Hn,
    (Checkout.customer_email cu) as [email|] eqn:He,
    (Checkout.customer_billing_address cu) as [address|] eqn:Hb,
    (bool_decide (Checkout.amount cu = None)
     && Checkout.is_custom (Checkout.product_price cu));
    simpl; try reflexivity.
  destruct (bool_decide (Checkout.payment_processor cu = Checkout.stripe))
    eqn:Hs; simpl; rewrite Hs; split; try reflexivity.
  exists name, email, address. repeat split; assumption.
Qed.

(** ** License keys: what validation changes *)

(** X8.  A validation that raises leaves the key exactly as it was; one
    that returns has only marked it validated and added the increment:
    status, limits, expiry and identity are those of before. *)
Theorem validate_changes_only_usage rows now v k :
  match LicenseKey.validate rows now v k with
  | (Raise _, k') => k' = k
  | (Ok _, k') =>
    k' = LicenseKey.mark_validated now (LicenseKey.increment_usage v) k
    /\ LicenseKey.status k' = LicenseKey.status k
    /\ LicenseKey.limit_usage k' = LicenseKey.limit_usage k
    /\ LicenseKey.limit_activations k' = LicenseKey.limit_activations k
    /\ LicenseKey.expires_at k' = LicenseKey.expires_at k
    /\ LicenseKey.id k' = LicenseKey.id k
    /\ LicenseKey.last_validated_at k' = Some now
  end.
Proof.
  pose proof (validate_checks_reads_only rows now v k) as Hs.
  unfold LicenseKey.validate, LicenseKey.check_usage, bind, get, modify, ret,
    raise.
  destruct (LicenseKey.validate_checks rows now v k) as [[act|e] k0];
    simpl in Hs; subst k0; [|reflexivity].
  destruct (LicenseKey.truthy (LicenseKey.increment_usage v)
            && LicenseKey.truthy (LicenseKey.limit_usage k)); simpl.
  - destruct (default 0 (LicenseKey.increment_usage v)
              >? default 0 (LicenseKey.limit_usage k) - LicenseKey.usage k);
      simpl; [reflexivity|]. repeat split.
  - repeat split.
Qed.

(** X9.  A key whose status is not [granted] is refused by every
    validation, with the not-found error "License key is no longer
    active.", and is left as it was. *)
Theorem validate_inactive_key rows now v k :
  LicenseKey.status k <> LicenseKey.granted ->
  LicenseKey.validate rows now v k
  = (Raise (LicenseKey.ResourceNotFound
              (Some "License key is no longer active.")), k).
Proof.
  intros Hst. apply validate_rejected_by_checks.
  unfold LicenseKey.validate_checks, LicenseKey.is_active, bind, get, raise.
  simpl. now rewrite bool_decide_eq_false_2.
Qed.

Lemma validate_inactive_key_witness :
  LicenseKey.validate [] 0 (Sample.use 1) (LicenseKey.mark_revoked Sample.seat)
  = (Raise (LicenseKey.ResourceNotFound
              (Some "License key is no longer active.")),
     LicenseKey.mark_revoked Sample.seat).
Proof.
  apply (validate_inactive_key [] 0 (Sample.use 1)
           (LicenseKey.mark_revoked Sample.seat)).
  discriminate.
Defined.

(** X10.  An active key with an expiry time [t] is refused as expired
    exactly from [t] on: at [now = t] it is already expired, and before [t]
    no validation fails with the expiry error. *)
Theorem validate_expiry_boundary rows now v k t :
  LicenseKey.status k = LicenseKey.granted ->
  LicenseKey.expires_at k = Some t ->
  (LicenseKey.validate rows now v k
   = (Raise (LicenseKey.ResourceNotFound (Some "License key has expired.")), k))
  <-> t <= now.
Proof.
  intros Hst Hexp. split.
  - intros Hrun. destruct (Z_le_gt_dec t now) as [?|Hgt]; [assumption|].
    exfalso. revert Hrun.
    pose proof (validate_changes_only_usage rows now v k) as Hshape.
    unfold LicenseKey.validate, LicenseKey.check_usage in *.
    unfold LicenseKey.validate_checks, LicenseKey.is_active,
      LicenseKey.get_activation_or_raise, bind, get, modify, ret, raise in *.
    simpl in *. rewrite Hst, Hexp in *. simpl in *.
    destruct (Z.geb_spec now t) as [?|_]; [lia|]. simpl in *.
    destruct (LicenseKey.v_activation_id v) as [aid|]; simpl in *;
      [destruct (LicenseKey.find_activation rows k aid) as [a|]; simpl in *;
       [destruct (negb (bool_decide (LicenseKey.conditions a = ∅))
                  && negb (bool_decide (LicenseKey.v_conditions v
                                        = LicenseKey.conditions a)));
        simpl in *; [discriminate|]
       |discriminate]|];
      (destruct (LicenseKey.v_benefit_id v) as [b|]; simpl in *;
       [destruct (negb (b =? LicenseKey.benefit_id k)%N); simpl in *;
        [discriminate|]|]);
      (destruct (LicenseKey.v_user_id v) as [u|]; simpl in *;
       [destruct (negb (u =? LicenseKey.user_id k)%N); simpl in *;
        [discriminate|]|]);
      (destruct (LicenseKey.truthy (LicenseKey.increment_usage v)
                 && LicenseKey.truthy (LicenseKey.limit_usage k)); simpl in *;
       [destruct (default 0 (LicenseKey.increment_usage v)
                  >? default 0 (LicenseKey.limit_usage k) - LicenseKey.usage k);
        simpl in *|]);
      discriminate.
  - intros Hle. apply validate_rejected_by_checks.
    unfold LicenseKey.validate_checks, LicenseKey.is_active, bind, get, raise.
    simpl. rewrite Hst, Hexp. simpl.
    destruct (Z.geb_spec now t) as [_|?]; [reflexivity|lia].
Qed.

Lemma validate_expiry_boundary_witness :
  LicenseKey.validate [] 100 (Sample.use 1)
    (Sample.with_limits 3 (Some 10) (Some 100))
  = (Raise (LicenseKey.ResourceNotFound (Some "License key has expired.")),
     Sample.with_limits 3 (Some 10) (Some 100)).
Proof.
  apply (validate_expiry_boundary [] 100 (Sample.use 1)
           (Sample.with_limits 3 (Some 10) (Some 100)) 100 eq_refl eq_refl).
  lia.
Defined.

Lemma validate_keeps_budget rows now v k L :
  LicenseKey.limit_usage k = Some L -> L <> 0 ->
  LicenseKey.usage k <= L ->
  LicenseKey.limit_usage (snd (LicenseKey.validate rows now v k)) = Some L
  /\ LicenseKey.usage (snd (LicenseKey.validate rows now v k)) <= L.
Proof.
  intros HL HL0 Hle.
  pose proof (validate_checks_reads_only rows now v k) as Hs.
  unfold LicenseKey.validate, LicenseKey.check_usage, bind, get, modify, ret,
    raise.
  destruct (LicenseKey.validate_checks rows now v k) as [[act|e] k0];
    simpl in Hs; subst k0; simpl; [|auto].
  rewrite HL. simpl.
  destruct (Z.eqb_spec L 0) as [?|_]; [contradiction|]. simpl.
  destruct (LicenseKey.increment_usage v) as [n|]; simpl;
    [|rewrite HL; auto].
  destruct (Z.eqb_spec n 0) as [->|Hn]; simpl.
  - rewrite HL. split; [reflexivity|lia].
  - destruct (Z.gtb_spec n (L - LicenseKey.usage k)); simpl;
      rewrite ?HL; split; auto; lia.
Qed.

(** X11.  On a key with a non-zero usage limit [L] whose usage is within
    the limit, no sequence of validations, accepted or refused, with any
    increments, takes the usage past [L]. *)
Theorem usage_never_exceeds_limit requests k L :
  LicenseKey.limit_usage k = Some L -> L <> 0 ->
  LicenseKey.usage k <= L ->
  LicenseKey.usage (LicenseKey.validate_all requests k) <= L.
Proof.
  intros HL HL0. revert k HL.
  induction requests as [|[[rows now] v] requests IH]; intros k HL Hle; simpl;
    [exact Hle|].
  destruct (validate_keeps_budget rows now v k L HL HL0 Hle) as [HL' Hle'].
  now apply IH.
Qed.

Lemma usage_never_exceeds_limit_witness :
  LicenseKey.usage
    (LicenseKey.validate_all
       [([], 0, Sample.use 4); ([], 1, Sample.use 4); ([], 2, Sample.use 3)]
       Sample.seat) <= 10.
Proof.
  apply (usage_never_exceeds_limit _ Sample.seat 10 eq_refl).
  - discriminate.
  - simpl. lia.
Defined.

(** ** License keys: grants *)

Lemma find_update_first {A} (p : A -> bool) (f : A -> A) (rows : list A) :
  (forall a, p (f a) = p a) ->
  List.find p (LicenseKey.update_first p f rows) = f <$> List.find p rows.
Proof.
  intros Hp. induction rows as [|a rest IH]; simpl; [reflexivity|].
  destruct (p a) eqn:Ha; simpl.
  - now rewrite Hp, Ha.
  - now rewrite Ha.
Qed.

Lemma update_first_length {A} (p : A -> bool) (f : A -> A) (rows : list A) :
  length (LicenseKey.update_first p f rows) = length rows.
Proof.
  induction rows as [|a rest IH]; simpl; [reflexivity|].
  destruct (p a); simpl; congruence.
Qed.

Lemma updated_attr_is_updated {A} `{EqDecision A} (current updated : A) :
  LicenseKey.updated_attr current updated = updated.
Proof. unfold LicenseKey.updated_attr. now destruct (decide _). Qed.

(** X12.  Granting again on an existing key, found by id, organization,
    user and benefit, sets its status, expiry and limits to those of the
    schema and touches nothing else: the usage counter is not reset.  The
    key is then found in that state, and granting once more changes
    nothing.  With no such key the call raises not-found and the table is
    as it was. *)
Theorem user_update_grant_outcomes kid schema keys :
  match List.find (LicenseKey.matches_grant kid
                     (LicenseKey.c_organization_id schema)
                     (LicenseKey.c_user_id schema)
                     (LicenseKey.c_benefit_id schema)) keys with
  | None =>
    LicenseKey.user_update_grant kid schema keys
    = (Raise (LicenseKey.ResourceNotFound None), keys)
  | Some k =>
    exists k' keys',
      LicenseKey.user_update_grant kid schema keys = (Ok k', keys')
      /\ LicenseKey.status k' = LicenseKey.c_status schema
      /\ LicenseKey.expires_at k' = LicenseKey.c_expires_at schema
      /\ LicenseKey.limit_activations k' = LicenseKey.c_limit_activations schema
      /\ LicenseKey.limit_usage k' = LicenseKey.c_limit_usage schema
      /\ LicenseKey.usage k' = LicenseKey.usage k
      /\ LicenseKey.id k' = LicenseKey.id k
      /\ LicenseKey.last_validated_at k' = LicenseKey.last_validated_at k
      /\ length keys' = length keys
      /\ List.find (LicenseKey.matches_grant kid
                      (LicenseKey.c_organization_id schema)
                      (LicenseKey.c_user_id schema)
                      (LicenseKey.c_benefit_id schema)) keys' = Some k'
      /\ fst (LicenseKey.user_update_grant kid schema keys') = Ok k'
  end.
Proof.
  set (p := LicenseKey.matches_grant kid (LicenseKey.c_organization_id schema)
              (LicenseKey.c_user_id schema) (LicenseKey.c_benefit_id schema)).
  assert (Hp : forall a, p (LicenseKey.apply_grant schema a) = p a)
    by reflexivity.
  destruct (List.find p keys) as [k|] eqn:Hfind.
  - exists (LicenseKey.apply_grant schema k),
      (LicenseKey.update_first p (LicenseKey.apply_grant schema) keys).
    assert (Hfind' : List.find p (LicenseKey.update_first p
                                    (LicenseKey.apply_grant schema) keys)
                     = Some (LicenseKey.apply_grant schema k)).
    { rewrite find_update_first by exact Hp. now rewrite Hfind. }
    split.
    { unfold LicenseKey.user_update_grant, LicenseKey.get_by_grant_or_raise,
        bind, get, modify, ret. fold p. simpl. now rewrite Hfind. }
    simpl. rewrite !updated_attr_is_updated.
    repeat split; try reflexivity.
    + apply update_first_length.
    + exact Hfind'.
    + unfold LicenseKey.user_update_grant, LicenseKey.get_by_grant_or_raise,
        bind, get, modify, ret. fold p. simpl. rewrite Hfind'. simpl.
      f_equal. unfold LicenseKey.apply_grant. simpl.
      now rewrite !updated_attr_is_updated.
  - unfold LicenseKey.user_update_grant, LicenseKey.get_by_grant_or_raise,
      bind, get, raise. fold p. simpl. now rewrite Hfind.
Qed.

(** X13.  A key revoked through [user_revoke] is refused by every later
    validation; revoking a key that is not the user's for that benefit
    raises not-found. *)
Theorem revoked_key_never_validates organization user benefit kid keys :
  match LicenseKey.user_revoke organization user benefit kid keys with
  | (Ok k', keys') =>
    List.find (LicenseKey.matches_grant kid organization user benefit) keys'
    = Some k'
    /\ forall rows now v,
        LicenseKey.validate rows now v k'
        = (Raise (LicenseKey.ResourceNotFound
                    (Some "License key is no longer active.")), k')
  | (Raise e, keys') =>
    e = LicenseKey.ResourceNotFound None /\ keys' = keys
    /\ List.find (LicenseKey.matches_grant kid organization user benefit) keys
       = None
  end.
Proof.
  unfold LicenseKey.user_revoke, LicenseKey.get_by_grant_or_raise,
    bind, get, modify, ret, raise. simpl.
  destruct (List.find (LicenseKey.matches_grant kid organization user benefit)
              keys) as [k|] eqn:Hfind; simpl.
  - split.
    + rewrite find_update_first by reflexivity. now rewrite Hfind.
    + intros rows now v. apply validate_rejected_by_checks. reflexivity.
  - auto.
Qed.

(** ** License keys: activations and their identifiers *)

Lemma fresh_id_above rows r :
  In r rows -> (LicenseKey.activation_id r < LicenseKey.fresh_id rows)%N.
Proof.
  unfold LicenseKey.fresh_id.
  induction rows as [|a rest IH]; simpl; [intros []|].
  intros [->|Hin].
  - apply N.lt_succ_r, N.le_max_l.
  - specialize (IH Hin). apply N.lt_succ_r in IH. apply N.lt_succ_r.
    etransitivity; [exact IH|apply N.le_max_r].
Qed.

Lemma find_activation_absent rows k aid :
  (forall r, In r rows -> LicenseKey.activation_id r <> aid) ->
  LicenseKey.find_activation rows k aid = None.
Proof.
  unfold LicenseKey.find_activation.
  induction rows as [|a rest IH]; simpl; [reflexivity|]. intros Hne.
  destruct (N.eqb_spec (LicenseKey.activation_id a) aid) as [Heq|_]; simpl.
  - exfalso. apply (Hne a); auto.
  - apply IH. intros r Hr. apply Hne. auto.
Qed.

Lemma find_activation_app rows rows' k aid :
  LicenseKey.find_activation (rows ++ rows') k aid
  = match LicenseKey.find_activation rows k aid with
    | Some a => Some a
    | None => LicenseKey.find_activation rows' k aid
    end.
Proof.
  unfold LicenseKey.find_activation.
  induction rows as [|a rest IH]; simpl; [reflexivity|].
  destruct ((LicenseKey.activation_id a =? aid)%N && LicenseKey.live_for k a);
    [reflexivity|exact IH].
Qed.

(** X14.  The activation [activate] returns gets an identifier no other row
    has, and is the one found under that identifier afterwards; a
    validation of an active, unexpired key that names it with the same
    conditions is accepted and returns it. *)
Theorem activate_then_found k body rows instance rows' :
  LicenseKey.activate k body rows = (Ok instance, rows') ->
  (forall r, In r rows ->
             LicenseKey.activation_id r <> LicenseKey.activation_id instance)
  /\ LicenseKey.find_activation rows' k (LicenseKey.activation_id instance)
     = Some instance
  /\ forall now usage_request,
      LicenseKey.status k = LicenseKey.granted ->
      LicenseKey.expires_at k = None ->
      LicenseKey.limit_usage k = None ->
      fst (LicenseKey.validate rows' now
             {| LicenseKey.v_activation_id :=
                  Some (LicenseKey.activation_id instance);
                LicenseKey.v_conditions := LicenseKey.a_conditions body;
                LicenseKey.v_benefit_id := None;
                LicenseKey.v_user_id := None;
                LicenseKey.increment_usage := usage_request |} k)
      = Ok (Some instance).
Proof.
  unfold LicenseKey.activate, bind, get, modify, ret, raise.
  destruct (negb (LicenseKey.truthy (LicenseKey.limit_activations k)));
    [discriminate|].
  destruct (LicenseKey.get_activation_count rows k
            >=? default 0 (LicenseKey.limit_activations k)); [discriminate|].
  simpl. intros H. injection H as <- <-.
  assert (Hfresh : forall r, In r rows ->
                     LicenseKey.activation_id r <> LicenseKey.fresh_id rows).
  { intros r Hr. pose proof (fresh_id_above rows r Hr). lia. }
  assert (Hfind : LicenseKey.find_activation
                    (rows ++ [{| LicenseKey.activation_id := LicenseKey.fresh_id rows;
                                 LicenseKey.license_key_id := LicenseKey.id k;
                                 LicenseKey.label := LicenseKey.a_label body;
                                 LicenseKey.conditions := LicenseKey.a_conditions body;
                                 LicenseKey.meta := LicenseKey.a_meta body;
                                 LicenseKey.deleted_at := None |}]) k
                    (LicenseKey.fresh_id rows)
                  = Some {| LicenseKey.activation_id := LicenseKey.fresh_id rows;
                            LicenseKey.license_key_id := LicenseKey.id k;
                            LicenseKey.label := LicenseKey.a_label body;
                            LicenseKey.conditions := LicenseKey.a_conditions body;
                            LicenseKey.meta := LicenseKey.a_meta body;
                            LicenseKey.deleted_at := None |}).
  { rewrite find_activation_app, find_activation_absent by exact Hfresh.
    unfold LicenseKey.find_activation, LicenseKey.live_for. simpl.
    now rewrite !N.eqb_refl. }
  split; [exact Hfresh|]. split; [exact Hfind|].
  intros now usage_request Hst Hexp HL.
  unfold LicenseKey.validate, LicenseKey.validate_checks, LicenseKey.check_usage,
    LicenseKey.get_activation_or_raise, LicenseKey.is_active,
    bind, get, modify, ret, raise.
  simpl. rewrite Hst, Hexp. simpl. rewrite Hfind. simpl.
  rewrite (bool_decide_eq_true_2 (LicenseKey.a_conditions body
                                  = LicenseKey.a_conditions body)) by reflexivity.
  rewrite andb_false_r. simpl. rewrite HL. simpl.
  now rewrite andb_false_r.
Qed.

Lemma activate_then_found_witness :
  exists instance rows',
    LicenseKey.activate Sample.seat Sample.laptop [] = (Ok instance, rows')
    /\ LicenseKey.find_activation rows' Sample.seat
         (LicenseKey.activation_id instance) = Some instance.
Proof.
  destruct (LicenseKey.activate Sample.seat Sample.laptop [])
    as [[instance|e] rows'] eqn:Hrun.
  - exists instance, rows'. split; [reflexivity|].
    apply (activate_then_found Sample.seat Sample.laptop [] instance rows' Hrun).
  - vm_compute in Hrun. discriminate Hrun.
Defined.

Lemma soft_delete_keeps_ids now (p : LicenseKey.LicenseKeyActivation -> bool) rows :
  map LicenseKey.activation_id
      (LicenseKey.update_first p (LicenseKey.mark_deleted now) rows)
  = map LicenseKey.activation_id rows.
Proof.
  induction rows as [|a rest IH]; simpl; [reflexivity|].
  destruct (p a); simpl; [reflexivity|now rewrite IH].
Qed.

Lemma find_after_soft_delete now k aid rows a :
  NoDup (map LicenseKey.activation_id rows) ->
  LicenseKey.find_activation rows k aid = Some a ->
  LicenseKey.find_activation
    (LicenseKey.update_first
       (fun r => (LicenseKey.activation_id r =? aid)%N && LicenseKey.live_for k r)
       (LicenseKey.mark_deleted now) rows) k aid
  = None.
Proof.
  unfold LicenseKey.find_activation.
  induction rows as [|r rest IH]; simpl; [discriminate|].
  intros Hnd Hfind. apply NoDup_cons in Hnd as [Hnotin Hnd].
  destruct (N.eqb_spec (LicenseKey.activation_id r) aid) as [Heq|Hne]; simpl in *.
  - destruct (LicenseKey.live_for k r) eqn:Hlive; simpl.
    + rewrite mark_deleted_not_live, andb_false_r.
      apply (find_activation_absent rest k aid).
      intros r' Hr' Heq'. apply Hnotin. rewrite list_elem_of_In.
      apply in_map_iff. exists r'. split; [congruence|exact Hr'].
    + rewrite Hlive, andb_false_r. now apply IH.
  - destruct (N.eqb_spec (LicenseKey.activation_id r) aid); [contradiction|].
    simpl. now apply IH.
Qed.

(** X15.  With pairwise distinct activation identifiers, an activation that
    was deactivated is gone for the service: it is no longer found,
    deactivating it again raises not-found, and every validation that
    names it is refused.  The row itself stays in the table. *)
Theorem deactivated_activation_is_gone now k aid rows rows' :
  NoDup (map LicenseKey.activation_id rows) ->
  LicenseKey.deactivate now k {| LicenseKey.d_activation_id := aid |} rows
  = (Ok true, rows') ->
  LicenseKey.find_activation rows' k aid = None
  /\ length rows' = length rows
  /\ (forall later,
        LicenseKey.deactivate later k {| LicenseKey.d_activation_id := aid |} rows'
        = (Raise (LicenseKey.ResourceNotFound None), rows'))
  /\ (forall t v,
        LicenseKey.v_activation_id v = Some aid ->
        exists message,
          LicenseKey.validate rows' t v k
          = (Raise (LicenseKey.ResourceNotFound message), k)).
Proof.
  intros Hnd.
  unfold LicenseKey.deactivate at 1, LicenseKey.get_activation_or_raise,
    bind, get, modify, ret, raise. simpl.
  destruct (LicenseKey.find_activation rows k aid) as [a|] eqn:Hfind; simpl;
    [|discriminate].
  intros H. injection H as <-.
  pose proof (find_after_soft_delete now k aid rows a Hnd Hfind) as Hgone.
  split; [exact Hgone|]. split; [apply update_first_length|]. split.
  - intros later. now apply deactivate_not_found.
  - intros t v Hv.
    assert (Hchecks : exists message,
               fst (LicenseKey.validate_checks
                      (LicenseKey.update_first
                         (fun r => (LicenseKey.activation_id r =? aid)%N
                                   && LicenseKey.live_for k r)
                         (LicenseKey.mark_deleted now) rows) t v k)
               = Raise (LicenseKey.ResourceNotFound message)).
    { unfold LicenseKey.validate_checks, LicenseKey.get_activation_or_raise,
        bind, get, raise, ret. simpl. rewrite Hv.
      destruct (LicenseKey.is_active k); simpl; [|eauto].
      destruct (LicenseKey.expires_at k) as [e|]; simpl;
        [destruct (t >=? e); simpl; [eauto|]|];
        rewrite Hgone; simpl; eauto. }
    destruct Hchecks as [message Hm]. exists message.
    now apply validate_rejected_by_checks.
Qed.

Lemma deactivated_activation_is_gone_witness :
  LicenseKey.find_activation
    (snd (LicenseKey.deactivate 5 Sample.seat
            {| LicenseKey.d_activation_id := 1 |} [Sample.laptop_row]))
    Sample.seat 1
  = None.
Proof.
  apply (deactivated_activation_is_gone 5 Sample.seat 1%N [Sample.laptop_row]).
  - repeat constructor. rewrite list_elem_of_In. intros [].
  - reflexivity.
Defined.

Lemma serve_keeps_ids_distinct k r rows :
  NoDup (map LicenseKey.activation_id rows) ->
  NoDup (map LicenseKey.activation_id (LicenseKey.serve k r rows))
  /\ (length rows <= length (LicenseKey.serve k r rows))%nat.
Proof.
  intros Hnd. destruct r as [body|now [aid]]; simpl.
  - unfold LicenseKey.activate, bind, get, modify, ret, raise.
    destruct (negb (LicenseKey.truthy (LicenseKey.limit_activations k)));
      simpl; [split; [exact Hnd|lia]|].
    destruct (LicenseKey.get_activation_count rows k
              >=? default 0 (LicenseKey.limit_activations k));
      simpl; [split; [exact Hnd|lia]|].
    rewrite map_app, length_app. simpl. split; [|lia].
    apply NoDup_app. split; [exact Hnd|]. split.
    + intros x Hx Hx'. apply list_elem_of_In in Hx.
      apply in_map_iff in Hx as (r & <- & Hr).
      apply list_elem_of_In in Hx'. destruct Hx' as [Heq|[]].
      pose proof (fresh_id_above rows r Hr). lia.
    + repeat constructor. rewrite list_elem_of_In. intros [].
  - unfold LicenseKey.deactivate, LicenseKey.get_activation_or_raise,
      bind, get, modify, ret, raise. simpl.
    destruct (LicenseKey.find_activation rows k aid); simpl;
      [|split; [exact Hnd|lia]].
    rewrite soft_delete_keeps_ids, update_first_length. split; [exact Hnd|lia].
Qed.

(** X16.  Through any sequence of activations and deactivations on a key,
    activation identifiers stay pairwise distinct and no row ever leaves
    the table: deactivation only soft-deletes. *)
Theorem activations_never_removed k requests rows :
  NoDup (map LicenseKey.activation_id rows) ->
  NoDup (map LicenseKey.activation_id
           (foldl (fun rows r => LicenseKey.serve k r rows) rows requests))
  /\ (length rows
      <= length (foldl (fun rows r => LicenseKey.serve k r rows) rows requests))%nat.
Proof.
  revert rows. induction requests as [|r requests IH]; intros rows Hnd; simpl.
  - split; [exact Hnd|lia].
  - destruct (serve_keeps_ids_distinct k r rows Hnd) as [Hnd' Hlen].
    destruct (IH _ Hnd') as [Hnd'' Hlen']. split; [exact Hnd''|lia].
Qed.

Lemma activations_never_removed_witness :
  (length [Sample.laptop_row]
   <= length (foldl (fun rows r => LicenseKey.serve Sample.seat r rows)
                [Sample.laptop_row]
                [LicenseKey.Deactivate 5 {| LicenseKey.d_activation_id := 1 |};
                 LicenseKey.Activate Sample.laptop]))%nat.
Proof.
  apply (activations_never_removed Sample.seat _ [Sample.laptop_row]).
  repeat constructor. rewrite list_elem_of_In. intros [].
Defined.

(** ** Webhooks: what a fan-out leaves behind *)

Lemma fresh_event_id_above s ev :
  In ev (Webhook.webhook_events s) ->
  (Webhook.event_id ev < Webhook.fresh_event_id s)%N.
Proof.
  unfold Webhook.fresh_event_id.
  induction (Webhook.webhook_events s) as [|a rest IH]; simpl; [intros []|].
  intros [->|Hin].
  - apply N.lt_succ_r, N.le_max_l.
  - specialize (IH Hin). apply N.lt_succ_r in IH. apply N.lt_succ_r.
    etransitivity; [exact IH|apply N.le_max_r].
Qed.

Lemma send_loop_log_and_ids p target endpoints :
  forall acc s,
    Forall (Webhook.handled p target) endpoints ->
    exists evs s',
      Webhook.send_loop p target endpoints acc s = (Ok (acc ++ evs), s')
      /\ Webhook.webhook_events s' = Webhook.webhook_events s ++ evs
      /\ Webhook.error_log s'
         = Webhook.error_log s ++ Webhook.unsupported_messages p target endpoints
      /\ (NoDup (map Webhook.event_id (Webhook.webhook_events s)) ->
          NoDup (map Webhook.event_id (Webhook.webhook_events s'))).
Proof.
  induction endpoints as [|e rest IH]; intros acc s Hall.
  - exists [], s. simpl. rewrite !app_nil_r. auto.
  - inversion Hall as [|? ? He Hrest]; subst.
    simpl. unfold Webhook.unsupported_messages. simpl.
    fold (Webhook.unsupported_messages p target rest).
    destruct (Webhook.get_payload p (Webhook.format e) target)
      as [data|[message| |name]] eqn:Hp.
    + set (ev := {| Webhook.event_id := Webhook.fresh_event_id s;
                    Webhook.webhook_endpoint_id := Webhook.id e;
                    Webhook.payload := data |}).
      destruct (IH (acc ++ [ev])
                  (Webhook.enqueue_job
                     (Webhook.webhook_event_send (Webhook.event_id ev))
                     (Webhook.add ev s)) Hrest)
        as (evs & s' & Hrun & Hev & Hlog & Hnd).
      exists (ev :: evs), s'.
      unfold bind, get, modify. simpl. fold ev.
      simpl in Hrun, Hev, Hlog, Hnd. rewrite Hrun.
      split; [now rewrite <- app_assoc|].
      split; [now rewrite Hev, <- app_assoc|].
      split; [exact Hlog|].
      intros Hnd0. apply Hnd.
      rewrite map_app. simpl. apply NoDup_app. split; [exact Hnd0|]. split.
      * intros x Hx Hx'. apply list_elem_of_In in Hx.
        apply in_map_iff in Hx as (ev0 & <- & Hin).
        apply list_elem_of_In in Hx'. destruct Hx' as [Heq|[]].
        pose proof (fresh_event_id_above s ev0 Hin). lia.
      * repeat constructor. rewrite list_elem_of_In. intros [].
    + destruct (IH acc (Webhook.log_error message s) Hrest)
        as (evs & s' & Hrun & Hev & Hlog & Hnd).
      exists evs, s'. unfold bind, modify. simpl. rewrite Hrun.
      simpl in Hlog. rewrite Hlog, <- app_assoc. auto.
    + destruct (IH acc s Hrest) as (evs & s' & Hrun & Hev & Hlog & Hnd).
      exists evs, s'. rewrite Hrun. auto.
    + exfalso. exact (He name Hp).
Qed.

(** X17.  A fan-out writes one line to the error log for each endpoint
    that signalled an unsupported target, in order, and none for a skipped
    one; the events it persists get identifiers distinct from each other
    and from those already in the session.  With no endpoint subscribed it
    returns the empty list and leaves the session as it was. *)
Theorem send_payload_log_and_ids table target p s :
  Forall (Webhook.handled p target)
         (Webhook.get_event_target_endpoints table (Webhook.type p) target) ->
  (exists evs s',
      Webhook.send_payload table target p s = (Ok evs, s')
      /\ Webhook.webhook_events s' = Webhook.webhook_events s ++ evs
      /\ Webhook.error_log s'
         = Webhook.error_log s
           ++ Webhook.unsupported_messages p target
                (Webhook.get_event_target_endpoints table (Webhook.type p) target)
      /\ (NoDup (map Webhook.event_id (Webhook.webhook_events s)) ->
          NoDup (map Webhook.event_id (Webhook.webhook_events s'))))
  /\ (Webhook.get_event_target_endpoints table (Webhook.type p) target = [] ->
      Webhook.send_payload table target p s = (Ok [], s)).
Proof.
  intros Hall. split.
  - unfold Webhook.send_payload.
    destruct (send_loop_log_and_ids p target _ [] s Hall) as (evs & s' & H).
    exists evs, s'. exact H.
  - intros Hnone. unfold Webhook.send_payload. rewrite Hnone. reflexivity.
Qed.

Lemma send_payload_log_and_ids_witness :
  exists evs s',
    Webhook.send_payload [Sample.chat_endpoint; Sample.raw_endpoint]
      (Webhook.Organization 10) Sample.order_created Sample.empty_session
    = (Ok evs, s')
    /\ Webhook.error_log s' = ["unsupported target"].
Proof.
  destruct (send_payload_log_and_ids
              [Sample.chat_endpoint; Sample.raw_endpoint]
              (Webhook.Organization 10) Sample.order_created
              Sample.empty_session)
    as [(evs & s' & Hrun & _ & Hlog & _) _].
  - repeat constructor; intros name; discriminate.
  - exists evs, s'. split; [exact Hrun|exact Hlog].
Defined.

Lemma send_loop_aborts p target pre e post name :
  forall acc s,
    Forall (Webhook.handled p target) pre ->
    Webhook.get_payload p (Webhook.format e) target
    = Raise (Webhook.OtherException name) ->
    exists evs s',
      Webhook.send_loop p target (pre ++ e :: post) acc s
      = (Raise (Webhook.OtherException name), s')
      /\ Webhook.webhook_events s' = Webhook.webhook_events s ++ evs
      /\ Webhook.jobs s'
         = Webhook.jobs s
           ++ map (fun ev => Webhook.webhook_event_send (Webhook.event_id ev)) evs
      /\ map Webhook.webhook_endpoint_id evs
         = map Webhook.id (List.filter (Webhook.serializes p target) pre).
Proof.
  intros acc s Hall Hother. revert acc s.
  induction pre as [|e0 rest IH]; intros acc s.
  - exists [], s. simpl. rewrite Hother, !app_nil_r. auto.
  - inversion Hall as [|? ? He Hrest]; subst.
    specialize (IH Hrest).
    simpl. unfold Webhook.serializes at 1.
    destruct (Webhook.get_payload p (Webhook.format e0) target)
      as [data|[message| |name0]] eqn:Hp.
    + set (ev := {| Webhook.event_id := Webhook.fresh_event_id s;
                    Webhook.webhook_endpoint_id := Webhook.id e0;
                    Webhook.payload := data |}).
      destruct (IH (acc ++ [ev])
                  (Webhook.enqueue_job
                     (Webhook.webhook_event_send (Webhook.event_id ev))
                     (Webhook.add ev s)))
        as (evs & s' & Hrun & Hev & Hjobs & Hids).
      exists (ev :: evs), s'.
      unfold bind, get, modify. simpl. fold ev.
      simpl in Hrun, Hev, Hjobs. rewrite Hrun.
      split; [reflexivity|].
      split; [now rewrite Hev, <- app_assoc|].
      split; [now rewrite Hjobs, <- app_assoc|].
      simpl. now rewrite Hids.
    + destruct (IH acc (Webhook.log_error message s))
        as (evs & s' & Hrun & Hev & Hjobs & Hids).
      exists evs, s'. unfold bind, modify. simpl. rewrite Hrun. auto.
    + destruct (IH acc s) as (evs & s' & Hrun & Hev & Hjobs & Hids).
      exists evs, s'. rewrite Hrun. auto.
    + exfalso. exact (He name0 Hp).
Qed.

(** X18.  An exception of the serialization other than the two signals
    leaves the loop at once: [send_payload] raises it, the endpoints after
    the failing one get nothing, and the events and delivery jobs of the
    endpoints served before it stay in the session and in the queue. *)
Theorem send_payload_aborts_on_other_exception table target p s pre e post name :
  Webhook.get_event_target_endpoints table (Webhook.type p) target
  = pre ++ e :: post ->
  Forall (Webhook.handled p target) pre ->
  Webhook.get_payload p (Webhook.format e) target
  = Raise (Webhook.OtherException name) ->
  exists evs s',
    Webhook.send_payload table target p s
    = (Raise (Webhook.OtherException name), s')
    /\ Webhook.webhook_events s' = Webhook.webhook_events s ++ evs
    /\ Webhook.jobs s'
       = Webhook.jobs s
         ++ map (fun ev => Webhook.webhook_event_send (Webhook.event_id ev)) evs
    /\ map Webhook.webhook_endpoint_id evs
       = map Webhook.id (List.filter (Webhook.serializes p target) pre).
Proof.
  intros Htargets Hall Hother. unfold Webhook.send_payload. rewrite Htargets.
  now apply send_loop_aborts.
Qed.

Lemma send_payload_aborts_on_other_exception_witness :
  exists evs s',
    Webhook.send_payload [Sample.raw_endpoint; Sample.chat_endpoint]
      (Webhook.Organization 10) Sample.broken_payload Sample.empty_session
    = (Raise (Webhook.OtherException "TypeError"), s')
    /\ Webhook.webhook_events s' = evs
    /\ map Webhook.webhook_endpoint_id evs = [1%N].
Proof.
  destruct (send_payload_aborts_on_other_exception
              [Sample.raw_endpoint; Sample.chat_endpoint]
              (Webhook.Organization 10) Sample.broken_payload
              Sample.empty_session [Sample.raw_endpoint] Sample.chat_endpoint
              [] "TypeError")
    as (evs & s' & Hrun & Hev & _ & Hids).
  - reflexivity.
  - repeat constructor; intros name; discriminate.
  - reflexivity.
  - exists evs, s'. auto.
Defined.

Lemma send_loop_events_come_from_endpoints p target endpoints :
  forall acc s out s',
    Webhook.send_loop p target endpoints acc s = (Ok out, s') ->
    exists evs,
      out = acc ++ evs
      /\ Forall (fun ev =>
                   exists e, In e endpoints
                             /\ Webhook.id e = Webhook.webhook_endpoint_id ev
                             /\ Webhook.get_payload p (Webhook.format e) target
                                = Ok (Webhook.payload ev)) evs.
Proof.
  induction endpoints as [|e rest IH]; intros acc s out s'; simpl.
  - unfold ret. intros H. injection H as <- <-. exists [].
    now rewrite app_nil_r.
  - destruct (Webhook.get_payload p (Webhook.format e) target)
      as [data|[message| |name]] eqn:Hp.
    + unfold bind, get, modify. simpl. intros Hrun.
      apply IH in Hrun as (evs & -> & Hall).
      eexists (_ :: evs). split; [now rewrite <- app_assoc|].
      constructor.
      * exists e. simpl. auto.
      * eapply Forall_impl; [exact Hall|].
        intros ev (e0 & Hin & H). exists e0. simpl. auto.
    + unfold bind, modify. simpl. intros Hrun.
      apply IH in Hrun as (evs & -> & Hall). exists evs. split; [reflexivity|].
      eapply Forall_impl; [exact Hall|].
      intros ev (e0 & Hin & H). exists e0. simpl. auto.
    + intros Hrun. apply IH in Hrun as (evs & -> & Hall).
      exists evs. split; [reflexivity|].
      eapply Forall_impl; [exact Hall|].
      intros ev (e0 & Hin & H). exists e0. simpl. auto.
    + discriminate.
Qed.

(** X19.  Every event [send_payload] returns belongs to an endpoint of the
    table that is not soft-deleted, is subscribed to the payload's event
    type and is owned by the target, and carries the payload serialized in
    that endpoint's format. *)
Theorem send_payload_only_to_subscribers table target p s evs s' :
  Webhook.send_payload table target p s = (Ok evs, s') ->
  forall ev,
    In ev evs ->
    exists e,
      In e table
      /\ Webhook.id e = Webhook.webhook_endpoint_id ev
      /\ Webhook.deleted_at e = None
      /\ In (Webhook.type p) (Webhook.events e)
      /\ match target with
         | Webhook.Organization oid => Webhook.organization_id e = Some oid
         | Webhook.User uid => Webhook.user_id e = Some uid
         end
      /\ Webhook.get_payload p (Webhook.format e) target
         = Ok (Webhook.payload ev).
Proof.
  unfold Webhook.send_payload. intros Hrun ev Hev.
  apply send_loop_events_come_from_endpoints in Hrun as (evs' & -> & Hall).
  simpl in Hev. rewrite Forall_forall in Hall.
  destruct (Hall ev) as (e & Hin & Hid & Hp);
    [now apply list_elem_of_In|].
  unfold Webhook.get_event_target_endpoints in Hin.
  apply filter_In in Hin as [Hin Hsel].
  apply andb_prop in Hsel as [Hsel Hown].
  apply andb_prop in Hsel as [Hdel Hsub].
  apply bool_decide_eq_true_1 in Hdel.
  apply existsb_exists in Hsub as (x & Hx & Heq).
  apply String.eqb_eq in Heq. subst x.
  exists e. repeat split; try assumption.
  destruct target; now apply bool_decide_eq_true_1 in Hown.
Qed.

Lemma send_payload_only_to_subscribers_witness :
  exists evs s',
    Webhook.send_payload [Sample.chat_endpoint; Sample.raw_endpoint]
      (Webhook.Organization 10) Sample.order_created Sample.empty_session
    = (Ok evs, s')
    /\ Forall (fun ev =>
                 exists e, In e [Sample.chat_endpoint; Sample.raw_endpoint]
                           /\ Webhook.id e = Webhook.webhook_endpoint_id ev
                           /\ Webhook.deleted_at e = None) evs.
Proof.
  destruct (Webhook.send_payload [Sample.chat_endpoint; Sample.raw_endpoint]
              (Webhook.Organization 10) Sample.order_created
              Sample.empty_session) as [[evs|e] s'] eqn:Hrun.
  - exists evs, s'. split; [reflexivity|].
    apply Forall_forall. intros ev Hev. apply list_elem_of_In in Hev.
    destruct (send_payload_only_to_subscribers _ _ _ _ _ _ Hrun ev Hev)
      as (e & Hin & Hid & Hdel & _).
    exists e. auto.
  - vm_compute in Hrun. discriminate Hrun.
Defined.

(** X20.  [delete_endpoint] soft-deletes: for a caller allowed to write the
    endpoint it stamps [deleted_at] and keeps everything else, and the
    endpoint is from then on never a target of a fan-out, whatever the
    event and the owner; for any other caller it raises [NotPermitted] and
    the endpoint is as it was. *)
Theorem delete_endpoint_outcomes authz_can now e :
  match Webhook.delete_endpoint authz_can now e with
  | (Ok _, e') =>
    authz_can e = true
    /\ Webhook.deleted_at e' = Some now
    /\ Webhook.id e' = Webhook.id e
    /\ Webhook.events e' = Webhook.events e
    /\ Webhook.organization_id e' = Webhook.organization_id e
    /\ Webhook.user_id e' = Webhook.user_id e
    /\ forall table event target,
        ~ In e' (Webhook.get_event_target_endpoints table event target)
  | (Raise err, e') =>
    authz_can e = false /\ err = Webhook.NotPermitted /\ e' = e
  end.
Proof.
  unfold Webhook.delete_endpoint, Webhook.can_write_endpoint,
    bind, get, modify, ret, raise. simpl.
  destruct (authz_can e); simpl; [|auto].
  repeat split.
  intros table event target Hin.
  unfold Webhook.get_event_target_endpoints in Hin.
  apply filter_In in Hin as [_ Hsel]. simpl in Hsel. discriminate Hsel.
Qed.

(** ** License keys: activation conditions *)

(** X21.  When a validation of an active, unexpired key names a live
    activation, the conditions it asserts are compared with those stored
    on the activation only if the stored ones are not empty: an activation
    without conditions accepts any, one with conditions accepts exactly
    its own, and a mismatch is a not-found error that leaves the key
    untouched. *)
Theorem validate_conditions rows now v k aid a :
  LicenseKey.status k = LicenseKey.granted ->
  LicenseKey.expires_at k = None ->
  LicenseKey.v_activation_id v = Some aid ->
  LicenseKey.find_activation rows k aid = Some a ->
  LicenseKey.v_benefit_id v = None ->
  LicenseKey.v_user_id v = None ->
  LicenseKey.limit_usage k = None ->
  (LicenseKey.conditions a = ∅
   \/ LicenseKey.v_conditions v = LicenseKey.conditions a ->
   LicenseKey.validate rows now v k
   = (Ok (Some a),
      LicenseKey.mark_validated now (LicenseKey.increment_usage v) k))
  /\ (LicenseKey.conditions a <> ∅ ->
      LicenseKey.v_conditions v <> LicenseKey.conditions a ->
      LicenseKey.validate rows now v k
      = (Raise (LicenseKey.ResourceNotFound
                  (Some "License key does not match required conditions")), k)).
Proof.
  intros Hst Hexp Haid Hfind Hb Hu HL.
  unfold LicenseKey.validate, LicenseKey.validate_checks, LicenseKey.check_usage,
    LicenseKey.get_activation_or_raise, LicenseKey.is_active,
    bind, get, modify, ret, raise.
  simpl. rewrite Hst, Hexp, Haid. simpl. rewrite Hfind. simpl. split.
  - intros [Hempty|Hsame].
    + rewrite (bool_decide_eq_true_2 _ Hempty). simpl.
      rewrite Hb, Hu, HL. simpl. now rewrite andb_false_r.
    + rewrite (bool_decide_eq_true_2 _ Hsame), andb_false_r. simpl.
      rewrite Hb, Hu, HL. simpl. now rewrite andb_false_r.
  - intros Hne Hdiff.
    rewrite (bool_decide_eq_false_2 _ Hne), (bool_decide_eq_false_2 _ Hdiff).
    reflexivity.
Qed.

Lemma validate_conditions_witness :
  LicenseKey.validate [Sample.laptop_row] 0
    {| LicenseKey.v_activation_id := Some 1%N;
       LicenseKey.v_conditions := {[ "host" := "anything" ]};
       LicenseKey.v_benefit_id := None; LicenseKey.v_user_id := None;
       LicenseKey.increment_usage := None |}
    (Sample.with_limits 3 None None)
  = (Ok (Some Sample.laptop_row),
     LicenseKey.mark_validated 0 None (Sample.with_limits 3 None None)).
Proof.
  destruct (validate_conditions [Sample.laptop_row] 0
              {| LicenseKey.v_activation_id := Some 1%N;
                 LicenseKey.v_conditions := {[ "host" := "anything" ]};
                 LicenseKey.v_benefit_id := None; LicenseKey.v_user_id := None;
                 LicenseKey.increment_usage := None |}
              (Sample.with_limits 3 None None) 1%N Sample.laptop_row
              eq_refl eq_refl eq_refl eq_refl eq_refl eq_refl eq_refl)
    as [Haccept _].
  apply Haccept. left. reflexivity.
Defined.

(** ** Authentication *)

Lemma prefix_app base suffix :
  String.prefix base (base ++ suffix)%string = true.
Proof.
  induction base as [|c base IH]; simpl.
  - now destruct suffix.
  - destruct (Ascii.ascii_dec c c) as [_|Hne]; [exact IH|contradiction].
Qed.

Lemma prefix_split base v :
  String.prefix base v = true -> exists suffix, v = (base ++ suffix)%string.
Proof.
  revert v. induction base as [|c base IH]; intros v.
  - intros _. now exists v.
  - destruct v as [|c' v]; simpl; [discriminate|].
    destruct (Ascii.ascii_dec c c') as [<-|_]; [|discriminate].
    intros H. destruct (IH v H) as [suffix ->]. now exists suffix.
Qed.

(** X22.  The validator of the login response accepts a [goto_url] exactly
    when it is absent or begins with the frontend base URL, and returns it
    unchanged; it is a test on the prefix only, so any continuation of the
    base URL passes.  Every other value is refused with "goto_url has to
    belong to polar". *)
Theorem goto_polar_url_prefix_only base v :
  (Auth.goto_polar_url base v = Ok v
   <-> (v = None \/ exists suffix, v = Some (base ++ suffix)%string))
  /\ (Auth.goto_polar_url base v = Ok v
      \/ Auth.goto_polar_url base v = Raise "goto_url has to belong to polar")
  /\ forall suffix,
      Auth.goto_polar_url base (Some (base ++ suffix)%string)
      = Ok (Some (base ++ suffix)%string).
Proof.
  unfold Auth.goto_polar_url. split; [|split].
  - destruct v as [url|]; [|split; auto].
    destruct (String.prefix base url) eqn:Hp; split.
    + intros _. right. destruct (prefix_split base url Hp) as [suffix ->].
      now exists suffix.
    + reflexivity.
    + discriminate.
    + intros [?|[suffix Heq]]; [discriminate|].
      injection Heq as ->. now rewrite prefix_app in Hp.
  - destruct v as [url|]; [|now left].
    destruct (String.prefix base url); [now left|now right].
  - intros suffix. now rewrite prefix_app.
Qed.

(** X23.  [get_user_from_auth_header] records the usage of a personal
    access token exactly when it answers through one: the token decodes,
    carries no ["user_id"] and a ["pat_id"] that names an existing token.
    A token that carries a ["user_id"] is resolved as a user token, as
    [get_user_from_cookie] does, whatever else it carries.  A token that
    decodes but carries neither claim makes the method raise, where
    [get_user_from_cookie] answers [None]. *)
Theorem auth_header_outcomes decode users pats token recorded :
  let r := fst (Auth.get_user_from_auth_header decode users pats token recorded) in
  let recorded' :=
    snd (Auth.get_user_from_auth_header decode users pats token recorded) in
  ((recorded' = recorded
    /\ ~ (exists decoded pid pat,
            decode token = Ok decoded /\ decoded !! "user_id" = None
            /\ decoded !! "pat_id" = Some pid /\ pats !! pid = Some pat))
   \/ (exists decoded pid pat,
         decode token = Ok decoded /\ decoded !! "user_id" = None
         /\ decoded !! "pat_id" = Some pid /\ pats !! pid = Some pat
         /\ r = Ok (Some (Auth.pat_user pat))
         /\ recorded' = recorded ++ [Auth.pat_id pat]))
  /\ (forall decoded uid,
        decode token = Ok decoded -> decoded !! "user_id" = Some uid ->
        r = Ok (users !! uid)
        /\ Auth.get_user_from_cookie decode users token = users !! uid)
  /\ (r = Raise Auth.FailedToDecodeToken
      <-> exists decoded,
          decode token = Ok decoded /\ decoded !! "user_id" = None
          /\ decoded !! "pat_id" = None)
  /\ (r = Raise Auth.FailedToDecodeToken ->
      Auth.get_user_from_cookie decode users token = None).
Proof.
  unfold Auth.get_user_from_auth_header, Auth.get_user_from_cookie,
    bind, modify, ret, raise. simpl.
  destruct (decode token) as [decoded|e] eqn:Hd; simpl;
    [destruct (decoded !! "user_id") as [uid|] eqn:Hu; simpl;
     [|destruct (decoded !! "pat_id") as [pid|] eqn:Hp; simpl;
       [destruct (pats !! pid) as [pat|] eqn:Hpat; simpl|]]|];
    (split;
     [first
        [ left; split; [reflexivity|];
          intros (d & pid' & pat' & Heq & Hu' & Hp' & Hpat');
          try discriminate Heq; injection Heq as <-; congruence
        | right; exists decoded, pid, pat; repeat split; assumption ]
     |]);
    (split;
     [intros d uid' Heq Hu'; try discriminate Heq; injection Heq as <-;
      try congruence;
      rewrite Hu in Hu'; injection Hu' as <-; split; reflexivity
     |]);
    (split;
     [split;
      [first [discriminate | intros _; exists decoded; repeat split; assumption]
      |intros (d & Heq & Hu' & Hp'); try discriminate Heq;
       injection Heq as <-; first [congruence | reflexivity]]
     |first [discriminate | reflexivity]]).
Qed.
